(** * GDK platform layer: session registry, completion dispatch and the
      suspend/resume handshake

    A shallow embedding of [Source/Engine/Platform/GDK/GDKPlatform.cpp].

    - [Array] models the engine container the globals are stored in.
    - [Registry] models the [User] record, the global [Users] array and the
      three task-queue callbacks that mutate it, together with [Tick],
      [CanOpenUrl] and [OpenUrl].
    - [Lifecycle] models [OnMainWindowCreated], the app-state-change
      callback it registers and the [WM_USER] branch of [WndProc] as an
      interleaving of the OS notification thread and the main thread. *)

From Stdlib Require Import ZArith Lia.
From Stdlib.Strings Require Import Byte.
From stdpp Require Import base decidable option numbers list vector strings gmap.
From Equations Require Import Equations.

Local Open Scope Z_scope.

(** Keeps the equation of a scrutinee for the termination proofs of the
    loops below. *)
Definition inspect {A : Type} (a : A) : {b : A | a = b} := exist _ a eq_refl.

(** ** The engine's array container *)

Module Array.

(** Modelled from the spec: [Array<T, FixedAllocation<N>>] is declared in
    Engine/Core/Collections/Array.h, which is not available.  The spec
    describes the two containers built on it as a "bounded ordered
    collection" of "small fixed capacity" whose overflow behaviour is
    "silently ignoring an add past capacity".  An array is the list of its
    items in index order.  The spec does not say in which order a removal
    leaves the remaining items, so both usual implementations are covered
    and the choice is a parameter of everything that removes. *)
Inductive RemovalOrder : Set :=
| KeepOrder      (* the items after the hole move down by one *)
| SwapWithLast.  (* the last item is moved into the hole *)

Section Operations.
Context {T : Type}.
(** [Capacity] is the template argument of [FixedAllocation]. *)
Variable Capacity : nat.
(** [equals] is [operator==] of the item type. *)
Variable equals : T → T → bool.

(** Modelled from the spec: [Array::Count], the number of items held. *)
Definition Count (a : list T) : nat := length a.

(** Modelled from the spec: [Array::HasItems], true when an item is held. *)
Definition HasItems (a : list T) : bool := bool_decide (0 < Count a)%nat.

(** Modelled from the spec: [Array::Clear] empties the array. *)
Definition Clear (a : list T) : list T := [].

(** Modelled from the spec: [Array::operator[]]; [None] stands for an
    index outside [0 .. Count). *)
Definition At (a : list T) (index : nat) : option T := a !! index.

(** Modelled from the spec: [Array::Add] appends the item; an add past the
    capacity is silently ignored. *)
Definition Add (item : T) (a : list T) : list T :=
  if decide (Count a < Capacity)%nat then a ++ [item] else a.

(** Modelled from the spec: [Array::AddOne] appends a default-constructed
    item and returns a reference to it, here the index of the new slot.
    Past the capacity nothing is added and there is no slot to refer to. *)
Definition AddOne (fresh : T) (a : list T) : list T * option nat :=
  if decide (Count a < Capacity)%nat
  then (a ++ [fresh], Some (Count a))
  else (a, None).

(** Modelled from the spec: [Array::RemoveAt] removes the item at [index];
    an index outside the array leaves it as it is. *)
Definition RemoveAt (order : RemovalOrder) (index : nat) (a : list T)
  : list T :=
  if decide (index < Count a)%nat then
    match order with
    | KeepOrder => delete index a
    | SwapWithLast =>
        match last a with
        | Some moved => take (Count a - 1) (<[index := moved]> a)
        | None => a
        end
    end
  else a.

(** Modelled from the spec: [Array::Find] returns the index of the first
    item equal to [item], searching from index 0. *)
Fixpoint Find_from (item : T) (a : list T) (index : nat) : option nat :=
  match a with
  | [] => None
  | x :: rest =>
      if equals x item then Some index else Find_from item rest (S index)
  end.

Definition Find (item : T) (a : list T) : option nat := Find_from item a 0.

(** Modelled from the spec: [Array::Remove] removes the first occurrence
    of [item], if there is one. *)
Definition Remove (order : RemovalOrder) (item : T) (a : list T) : list T :=
  match Find item a with
  | Some index => RemoveAt order index a
  | None => a
  end.
End Operations.

End Array.

(** ** Platform types *)

Definition HRESULT := Z.

Definition SUCCEEDED (hr : HRESULT) : bool := bool_decide (0 ≤ hr).
Definition FAILED (hr : HRESULT) : bool := bool_decide (hr < 0).

(** An [XUserHandle] is an opaque pointer. *)
Definition XUserHandle := Z.

Record XUserLocalId : Set := { value : Z }.

Definition BYTE := Byte.byte.

#[global] Instance BYTE_eq_dec : EqDecision BYTE := Byte.byte_eq_dec.

Definition sizeof_APP_LOCAL_DEVICE_ID : nat := 32.

(** [APP_LOCAL_DEVICE_ID] wraps [BYTE value[32]]; [ToString] in the source
    reads it as eight 32-bit words at offsets 0, 4 .. 28. *)
Record APP_LOCAL_DEVICE_ID : Set :=
  { device_value : vec BYTE sizeof_APP_LOCAL_DEVICE_ID }.

(** Modelled from the spec: [Platform::MemoryCompare] is declared in
    Engine/Platform/Platform.h, which is not available; the spec calls the
    comparison "fixed-width byte-exact".  It is [memcmp]: the difference of
    the first pair of bytes that differ among the first [size] ones, and 0
    when there is none. *)
Fixpoint MemoryCompare (l r : list BYTE) (size : nat) : Z :=
  match size, l, r with
  | S size', a :: l', b :: r' =>
      if decide (a = b) then MemoryCompare l' r' size'
      else Z.of_N (Byte.to_N a) - Z.of_N (Byte.to_N b)
  | _, _, _ => 0
  end.

(** [operator==(const APP_LOCAL_DEVICE_ID&, const APP_LOCAL_DEVICE_ID&)] *)
Definition APP_LOCAL_DEVICE_ID_eq (l r : APP_LOCAL_DEVICE_ID) : bool :=
  bool_decide
    (MemoryCompare (vec_to_list (device_value l)) (vec_to_list (device_value r))
       sizeof_APP_LOCAL_DEVICE_ID = 0).

(** [XUserChangeEvent] and the values of its enumerators, as the GDK's
    XUser.h declares them; the callback logs the value. *)
Inductive XUserChangeEvent : Set :=
| SignedInAgain | SigningOut | SignedOut | Gamertag | GamerPicture | Privileges.

Definition XUserChangeEvent_to_int (e : XUserChangeEvent) : Z :=
  match e with
  | SignedInAgain => 0 | SigningOut => 1 | SignedOut => 2
  | Gamertag => 3 | GamerPicture => 4 | Privileges => 5
  end.

Record XUserDeviceAssociationChange : Set :=
  { deviceId : APP_LOCAL_DEVICE_ID;
    oldUser : XUserLocalId;
    newUser : XUserLocalId }.

(** An [XAsyncBlock] of a sign-in request.  [block] identifies the heap
    object; the other two fields are what [XUserAddResult] yields for it. *)
Record XAsyncBlock : Set :=
  { block : Z;
    result : HRESULT;
    resultUser : XUserHandle }.

Definition XUserAddResult (ab : XAsyncBlock) : HRESULT * XUserHandle :=
  (result ab, resultUser ab).

Definition MSG := Z.
(** [Char] is the engine's UTF-16 code unit. *)
Definition Char := Z.
Definition WM_USER : MSG := 0x0400.

(** ** Session registry *)

Module Registry.

Record User : Set :=
  { UserHandle : XUserHandle;
    LocalId : XUserLocalId;
    AssociatedDevices : list APP_LOCAL_DEVICE_ID }.

(** Capacities of [Array<APP_LOCAL_DEVICE_ID, FixedAllocation<32>>] and
    [Array<User, FixedAllocation<8>>]. *)
Definition AssociatedDevices_Capacity : nat := 32.
Definition Users_Capacity : nat := 8.

(** What the callbacks do to the outside world, in program order. *)
Inductive LogMessage : Set :=
| UserEvent (userLocalId : Z) (event : Z)
| UserDeviceAssociationEvent (device : APP_LOCAL_DEVICE_ID) (old new : Z).

Inductive Effect : Set :=
| LOG_Info (m : LogMessage)
| XUserCloseHandle (h : XUserHandle)
| delete_XAsyncBlock (ab : Z)
| GDKInput_Update
| TranslateMessage (msg : MSG)
| DispatchMessage (msg : MSG)
| XLaunchUri (h : XUserHandle) (url : list BYTE).

(** The globals the callbacks touch: the [Users] array, and the effects
    performed so far. *)
Record Globals : Set :=
  { Users : list User;
    Trace : list Effect }.

Definition set_Users (us : list User) (g : Globals) : Globals :=
  {| Users := us; Trace := Trace g |}.

Definition emit (e : Effect) (g : Globals) : Globals :=
  {| Users := Users g; Trace := Trace g ++ [e] |}.

(** A [User*] or [User&] into [Users] is the index of the slot; writing
    through it updates that slot. *)
Definition through (p : nat) (f : User → User) (g : Globals) : Globals :=
  match Users g !! p with
  | Some u => set_Users (<[p := f u]> (Users g)) g
  | None => g
  end.

Definition set_AssociatedDevices (ds : list APP_LOCAL_DEVICE_ID) (u : User)
  : User :=
  {| UserHandle := UserHandle u; LocalId := LocalId u;
     AssociatedDevices := ds |}.

(** [User::Set] *)
Definition User_Set (userHandle : XUserHandle) (localId : XUserLocalId)
    (u : User) : User :=
  {| UserHandle := userHandle;
     LocalId := localId;
     AssociatedDevices := Array.Clear (AssociatedDevices u) |}.

(** [User::Unset], called on the slot [p] of [Users]. *)
Definition User_Unset (p : nat) (g : Globals) : Globals :=
  match Users g !! p with
  | Some u =>
      let g := emit (XUserCloseHandle (UserHandle u)) g in
      through p (λ u, set_AssociatedDevices (Array.Clear (AssociatedDevices u)) u) g
  | None => g
  end.

(** A slot freshly made by [AddOne]: the array is default-constructed,
    the two plain fields are not initialised (and are written by [Set]
    before anything reads them). *)
Definition User_fresh : User :=
  {| UserHandle := 0; LocalId := {| value := 0 |}; AssociatedDevices := [] |}.

Section Callbacks.
(** [XUserGetLocalId]: the local id the runtime reports for a handle.  The
    source does not look at the call's status; the call is taken to
    succeed. *)
Variable XUserGetLocalId : XUserHandle → XUserLocalId.
Variable order : Array.RemovalOrder.

(** The [SignedOut] loop of [UserChangeEventCallback], from index [i]
    on, with [n] iterations left before [i] reaches [Users.Count()]. *)
Fixpoint SignedOut_loop (userLocalId : XUserLocalId) (n i : nat)
    (g : Globals) : Globals :=
  match n with
  | O => g
  | S n' =>
      match Array.At (Users g) i with
      | Some u =>
          if decide (value (LocalId u) = value userLocalId) then
            let g := User_Unset i g in
            set_Users (Array.RemoveAt order i (Users g)) g
          else SignedOut_loop userLocalId n' (S i) g
      | None => g
      end
  end.

Definition UserChangeEventCallback (userLocalId : XUserLocalId)
    (event : XUserChangeEvent) (g : Globals) : Globals :=
  let g := emit (LOG_Info (UserEvent (value userLocalId)
                             (XUserChangeEvent_to_int event))) g in
  match event with
  | SignedInAgain => g
  | SignedOut => SignedOut_loop userLocalId (Array.Count (Users g)) 0 g
  | _ => g
  end.

(** [UserChangeEventCallback] statement by statement.  A program point
    names the statement about to run and [At_return] is the end of the
    function; the two statements of [User::Unset] are program points of
    their own, [i] being the slot the method is called on. *)
Inductive ChangePC : Set :=
| At_LOG
| At_switch
| At_loop_test (i : nat)
| At_compare (i : nat)
| At_Unset_XUserCloseHandle (i : nat)
| At_Unset_Clear (i : nat)
| At_RemoveAt (i : nat)
| At_return.

(** One statement of [UserChangeEventCallback].  [None] is the end of the
    function, or an access [Users[i]] outside the array. *)
Definition UserChangeEventCallback_step (userLocalId : XUserLocalId)
    (event : XUserChangeEvent) (c : ChangePC * Globals)
  : option (ChangePC * Globals) :=
  let '(pc, g) := c in
  match pc with
  | At_LOG =>
      Some (At_switch,
            emit (LOG_Info (UserEvent (value userLocalId)
                              (XUserChangeEvent_to_int event))) g)
  | At_switch =>
      match event with
      | SignedInAgain => Some (At_return, g)
      | SignedOut => Some (At_loop_test 0, g)
      | _ => Some (At_return, g)
      end
  | At_loop_test i =>
      if decide (i < Array.Count (Users g))%nat
      then Some (At_compare i, g)
      else Some (At_return, g)
  | At_compare i =>
      match Array.At (Users g) i with
      | Some u =>
          if decide (value (LocalId u) = value userLocalId)
          then Some (At_Unset_XUserCloseHandle i, g)
          else Some (At_loop_test (S i), g)
      | None => None
      end
  | At_Unset_XUserCloseHandle i =>
      match Array.At (Users g) i with
      | Some u => Some (At_Unset_Clear i, emit (XUserCloseHandle (UserHandle u)) g)
      | None => None
      end
  | At_Unset_Clear i =>
      Some (At_RemoveAt i,
            through i (λ u, set_AssociatedDevices
                              (Array.Clear (AssociatedDevices u)) u) g)
  | At_RemoveAt i =>
      Some (At_return, set_Users (Array.RemoveAt order i (Users g)) g)
  | At_return => None
  end.

(** Where the callback stands after [n] statements; a callback that has
    returned stays where it is. *)
Fixpoint UserChangeEventCallback_run (userLocalId : XUserLocalId)
    (event : XUserChangeEvent) (n : nat) (c : ChangePC * Globals)
  : ChangePC * Globals :=
  match n with
  | O => c
  | S n' =>
      let c' := UserChangeEventCallback_run userLocalId event n' c in
      default c' (UserChangeEventCallback_step userLocalId event c')
  end.

(** [FindUser]: the range-for over [Users]; the result is a pointer to
    the first match, or null. *)
Fixpoint FindUser_from (id : XUserLocalId) (users : list User) (i : nat)
  : option nat :=
  match users with
  | [] => None
  | user :: rest =>
      if decide (value (LocalId user) = value id) then Some i
      else FindUser_from id rest (S i)
  end.

Definition FindUser (id : XUserLocalId) (g : Globals) : option nat :=
  FindUser_from id (Users g) 0.

Definition UserDeviceAssociationChangedCallback
    (change : XUserDeviceAssociationChange) (g : Globals) : Globals :=
  let g := emit (LOG_Info (UserDeviceAssociationEvent (deviceId change)
                             (value (oldUser change))
                             (value (newUser change)))) g in
  let oldGameUser := FindUser (oldUser change) g in
  let g :=
    match oldGameUser with
    | Some p =>
        through p (λ u, set_AssociatedDevices
                          (Array.Remove APP_LOCAL_DEVICE_ID_eq order
                             (deviceId change) (AssociatedDevices u)) u) g
    | None => g
    end in
  let newGameUser := FindUser (newUser change) g in
  match newGameUser with
  | Some p =>
      through p (λ u, set_AssociatedDevices
                        (Array.Add AssociatedDevices_Capacity
                           (deviceId change) (AssociatedDevices u)) u) g
  | None => g
  end.

Definition AddUserComplete (ab : XAsyncBlock) (g : Globals) : Globals :=
  let '(hr, userHandle) := XUserAddResult ab in
  let g :=
    if SUCCEEDED hr then
      let userLocalId := XUserGetLocalId userHandle in
      let localId := XUserGetLocalId userHandle in
      match FindUser localId g with
      | None =>
          let '(users, user) :=
            Array.AddOne Users_Capacity User_fresh (Users g) in
          let g := set_Users users g in
          match user with
          | Some p => through p (User_Set userHandle userLocalId) g
          | None => g
          end
      | Some _ => g
      end
    else g in
  emit (delete_XAsyncBlock (block ab)) g.

(** ** Completion port and dispatch loop *)

(** What sits in the completion port of [TaskQueue]: the callback to
    run with its arguments. *)
Inductive Completion : Set :=
| AddUserCompletion (ab : XAsyncBlock)
| UserChangeCompletion (userLocalId : XUserLocalId) (event : XUserChangeEvent)
| DeviceAssociationCompletion (change : XUserDeviceAssociationChange).

Definition invoke (c : Completion) (g : Globals) : Globals :=
  match c with
  | AddUserCompletion ab => AddUserComplete ab g
  | UserChangeCompletion id ev => UserChangeEventCallback id ev g
  | DeviceAssociationCompletion ch =>
      UserDeviceAssociationChangedCallback ch g
  end.

(** [XTaskQueueDispatch(TaskQueue, XTaskQueuePort::Completion, 0)]: with
    a zero timeout the call does not wait; it runs the oldest queued
    callback and returns true, or returns false on an empty port. *)
Definition XTaskQueueDispatch (port : list Completion) (g : Globals)
  : bool * list Completion * Globals :=
  match port with
  | [] => (false, [], g)
  | c :: rest => (true, rest, invoke c g)
  end.

(** [PeekMessage(&msg, nullptr, 0, 0, PM_REMOVE)] takes the oldest
    message off the thread's queue, if there is one. *)
Definition PeekMessage (queue : list MSG) : option MSG * list MSG :=
  match queue with
  | [] => (None, [])
  | msg :: rest => (Some msg, rest)
  end.

(** [while (XTaskQueueDispatch(TaskQueue, XTaskQueuePort::Completion, 0)) {}] *)
Equations? dispatch_loop (port : list Completion) (g : Globals)
  : list Completion * Globals by wf (length port) lt :=
  dispatch_loop port g with inspect (XTaskQueueDispatch port g) => {
    | exist _ (true, port', g') _ := dispatch_loop port' g';
    | exist _ (false, port', g') _ := (port', g') }.
Proof.
  destruct port as [|c rest]; simpl in *; [discriminate|].
  match goal with H : _ = (true, _, _) |- _ => injection H as <- _ end.
  lia.
Qed.

(** [while (PeekMessage(...)) { TranslateMessage(&msg); DispatchMessage(&msg); }]
    What the window procedure does with [WM_USER] is the subject of
    [Lifecycle]; here a dispatched message is an effect. *)
Equations? message_loop (queue : list MSG) (g : Globals)
  : list MSG * Globals by wf (length queue) lt :=
  message_loop queue g with inspect (PeekMessage queue) => {
    | exist _ (Some msg, queue') _ :=
        message_loop queue'
          (emit (DispatchMessage msg) (emit (TranslateMessage msg) g));
    | exist _ (None, queue') _ := (queue', g) }.
Proof.
  destruct queue as [|m rest]; simpl in *; [discriminate|].
  match goal with H : _ = (Some _, _) |- _ => injection H as _ <- end.
  lia.
Qed.

(** The main thread's view of the platform: the globals, the completion
    port of [TaskQueue] and the native message queue. *)
Record Platform : Set :=
  { globals : Globals;
    CompletionPort : list Completion;
    MessageQueue : list MSG }.

(** [GDKPlatform::Tick] *)
Definition Tick (p : Platform) : Platform :=
  let g := emit GDKInput_Update (globals p) in
  let '(port, g) := dispatch_loop (CompletionPort p) g in
  let '(queue, g) := message_loop (MessageQueue p) g in
  {| globals := g; CompletionPort := port; MessageQueue := queue |}.

(** [GDKPlatform::CanOpenUrl] *)
Definition CanOpenUrl (url : list Char) (g : Globals) : bool :=
  Array.HasItems (Users g).

(** [StringAsANSI<>] (Engine/Utilities/StringConverter.h) narrows the
    UTF-16 text; the conversion is a parameter. *)
Variable StringAsANSI : list Char → list BYTE.

(** [GDKPlatform::OpenUrl].  [None] is the access [Users[0]] falling
    outside the array. *)
Definition OpenUrl (url : list Char) (g : Globals) : option Globals :=
  let urlANSI := StringAsANSI url in
  match Array.At (Users g) 0 with
  | Some user => Some (emit (XLaunchUri (UserHandle user) urlANSI) g)
  | None => None
  end.
(** *** Vocabulary of the statements below *)

(** The local ids held by the registry, in index order. *)
Definition ids (g : Globals) : list Z :=
  (λ u, value (LocalId u)) <$> Users g.

(** The sessions of the registry without their device lists. *)
Definition sessions (g : Globals) : list (XUserHandle * XUserLocalId) :=
  (λ u, (UserHandle u, LocalId u)) <$> Users g.

(** Completions applied oldest first. *)
Definition apply_all (cs : list Completion) (g : Globals) : Globals :=
  foldl (λ g c, invoke c g) g cs.

(** The body of the [SignedOut] loop at a matching index [i]. *)
Definition sign_out_at (i : nat) (g : Globals) : Globals :=
  let g := User_Unset i g in
  set_Users (Array.RemoveAt order i (Users g)) g.

(** The effects of the message loop on a list of messages. *)
Definition message_effects (msgs : list MSG) : list Effect :=
  concat ((λ msg, [TranslateMessage msg; DispatchMessage msg]) <$> msgs).

(** What [message_loop] does with one message. *)
Definition deliver (g : Globals) (msg : MSG) : Globals :=
  emit (DispatchMessage msg) (emit (TranslateMessage msg) g).

Definition device_lists_are_sets (g : Globals) : Prop :=
  ∀ u, u ∈ Users g → NoDup (AssociatedDevices u).

Definition is_log (e : Effect) : bool :=
  match e with LOG_Info _ => true | _ => false end.

(** The log line of a [SignedOut] event. *)
Definition sign_out_line (id : XUserLocalId) : Effect :=
  LOG_Info (UserEvent (value id) (XUserChangeEvent_to_int SignedOut)).

(** The effects added between two states of the globals. *)
Definition effects_since (g g' : Globals) : list Effect :=
  drop (length (Trace g)) (Trace g').

(** The device list of a session after the detach and the attach of a
    device-association change have each been applied or skipped. *)
Definition devices_after (detach attach : bool) (device : APP_LOCAL_DEVICE_ID)
    (devices : list APP_LOCAL_DEVICE_ID) : list APP_LOCAL_DEVICE_ID :=
  let devices :=
    if detach
    then Array.Remove APP_LOCAL_DEVICE_ID_eq order device devices
    else devices in
  if attach
  then Array.Add AssociatedDevices_Capacity device devices
  else devices.

(** Readings of the spec that the code does not meet as they stand; each
    is compared with the code below. *)

(** "A successful sign-in for a local id that is not present inserts
    exactly one new session with an empty device set." *)
Definition sign_in_inserts_one (ab : XAsyncBlock) (g : Globals) : Prop :=
  ∃ u, Users (AddUserComplete ab g) = Users g ++ [u] ∧
       LocalId u = XUserGetLocalId (resultUser ab) ∧
       AssociatedDevices u = [].

(** "The failure of a sign-in completion is logged." *)
Definition sign_in_failure_is_logged (ab : XAsyncBlock) (g : Globals) : Prop :=
  ∃ e, e ∈ effects_since g (AddUserComplete ab g) ∧ is_log e = true.
End Callbacks.

(** The registry before anything has run. *)
Definition empty : Globals := {| Users := []; Trace := [] |}.

End Registry.

(** ** Suspend/resume handshake *)

Module Lifecycle.

Definition HANDLE := Z.

(** How a function of the platform layer ends: it returns to its caller,
    or it ends the process with [exit]. *)
Inductive Outcome (A : Type) : Type :=
| Returns (a : A)
| Exits (code : Z).
Arguments Returns {A} a.
Arguments Exits {A} code.

(** [GDKPlatform::PreInit], as far as its two fatal checks go:
    [runtime] is the result of [XGameRuntimeInitialize] and [atom] the
    result of [RegisterClassW]. *)
Definition PreInit (runtime : HRESULT) (atom : Z) : Outcome unit :=
  if FAILED runtime then Exits (-1)
  else if bool_decide (atom = 0) then Exits (-1)
  else Returns tt.

(** What the OS answers to the calls of [OnMainWindowCreated]: the two
    handles returned by [CreateEventEx] (null is 0) and the status
    returned by [RegisterAppStateChangeNotification] (0 is success). *)
Record OS : Set :=
  { CreateEventEx_1 : HANDLE;
    CreateEventEx_2 : HANDLE;
    RegisterAppStateChangeNotification_status : Z }.

Inductive Call : Set :=
| CreateEventEx
| RegisterAppStateChangeNotification.

(** The globals after [OnMainWindowCreated]: the two handles, whether the
    callback is registered, and the OS calls made, oldest first. *)
Record Setup : Set :=
  { PlmSuspendComplete : HANDLE;
    PlmSignalResume : HANDLE;
    registered : bool;
    calls : list Call }.

(** [OnMainWindowCreated] *)
Definition OnMainWindowCreated (os : OS) : Outcome Setup :=
  let suspendComplete := CreateEventEx_1 os in
  let signalResume := CreateEventEx_2 os in
  if bool_decide (suspendComplete = 0) || bool_decide (signalResume = 0) then
    Returns {| PlmSuspendComplete := suspendComplete;
               PlmSignalResume := signalResume;
               registered := false;
               calls := [CreateEventEx; CreateEventEx] |}
  else
    Returns {| PlmSuspendComplete := suspendComplete;
               PlmSignalResume := signalResume;
               registered :=
                 bool_decide (RegisterAppStateChangeNotification_status os = 0);
               calls := [CreateEventEx; CreateEventEx;
                         RegisterAppStateChangeNotification] |}.

(** *** The two threads *)

(** The two events.  [CreateEventEx] is called with flags 0: they are
    auto-reset and start unsignaled, so a satisfied wait clears them. *)
Inductive Signal : Set := SuspendComplete | SignalResume.

(** Program points of the registered callback run with [quiesced] true;
    each names the statement about to run. *)
Inductive NotifierPC : Set :=
| N_Idle
| N_ResetSuspendComplete
| N_ResetSignalResume
| N_PostMessage
| N_WaitSuspendComplete.

(** Program points of the main thread: in the message loop, or inside
    the [WM_USER] branch of [WndProc]. *)
Inductive MainPC : Set :=
| M_Loop
| M_LogSuspending
| M_SetIsSuspended
| M_OnSuspend
| M_SetSuspendComplete
| M_WaitSignalResume
| M_ClearIsSuspended
| M_LogResuming
| M_OnResume
| M_DefWindowProc.

Inductive Action : Set :=
| Notified (quiesced : bool)
| ResetEvent (e : Signal)
| SetEvent (e : Signal)
| PostMessage (msg : MSG)
| PostedByOthers (msg : MSG)
| WaitReturned (e : Signal)
| Dispatched (msg : MSG)
| LOG_Suspending
| LOG_Resuming
| OnSuspend
| OnResume
| DefWindowProc.

(** [history] lists the actions of both threads, newest first. *)
Record State : Set :=
  { callback_registered : bool;
    SuspendComplete_signaled : bool;
    SignalResume_signaled : bool;
    IsSuspended : bool;
    queue : list MSG;
    notifier : NotifierPC;
    main : MainPC;
    history : list Action }.

Definition signaled (e : Signal) (s : State) : bool :=
  match e with
  | SuspendComplete => SuspendComplete_signaled s
  | SignalResume => SignalResume_signaled s
  end.

Definition set_signaled (e : Signal) (b : bool) (s : State) : State :=
  {| callback_registered := callback_registered s;
     SuspendComplete_signaled :=
       match e with SuspendComplete => b | _ => SuspendComplete_signaled s end;
     SignalResume_signaled :=
       match e with SignalResume => b | _ => SignalResume_signaled s end;
     IsSuspended := IsSuspended s;
     queue := queue s;
     notifier := notifier s;
     main := main s;
     history := history s |}.

Definition set_IsSuspended (b : bool) (s : State) : State :=
  {| callback_registered := callback_registered s;
     SuspendComplete_signaled := SuspendComplete_signaled s;
     SignalResume_signaled := SignalResume_signaled s;
     IsSuspended := b;
     queue := queue s;
     notifier := notifier s;
     main := main s;
     history := history s |}.

Definition set_queue (q : list MSG) (s : State) : State :=
  {| callback_registered := callback_registered s;
     SuspendComplete_signaled := SuspendComplete_signaled s;
     SignalResume_signaled := SignalResume_signaled s;
     IsSuspended := IsSuspended s;
     queue := q;
     notifier := notifier s;
     main := main s;
     history := history s |}.

Definition notifier_at (pc : NotifierPC) (s : State) : State :=
  {| callback_registered := callback_registered s;
     SuspendComplete_signaled := SuspendComplete_signaled s;
     SignalResume_signaled := SignalResume_signaled s;
     IsSuspended := IsSuspended s;
     queue := queue s;
     notifier := pc;
     main := main s;
     history := history s |}.

Definition main_at (pc : MainPC) (s : State) : State :=
  {| callback_registered := callback_registered s;
     SuspendComplete_signaled := SuspendComplete_signaled s;
     SignalResume_signaled := SignalResume_signaled s;
     IsSuspended := IsSuspended s;
     queue := queue s;
     notifier := notifier s;
     main := pc;
     history := history s |}.

Definition record (a : Action) (s : State) : State :=
  {| callback_registered := callback_registered s;
     SuspendComplete_signaled := SuspendComplete_signaled s;
     SignalResume_signaled := SignalResume_signaled s;
     IsSuspended := IsSuspended s;
     queue := queue s;
     notifier := notifier s;
     main := main s;
     history := a :: history s |}.

(** [WaitForSingleObject(e, INFINITE)]: the call returns only once the
    event is signaled, and takes the signal with it.  [None] is a thread
    that cannot move. *)
Definition WaitForSingleObject (e : Signal) (s : State) : option State :=
  if signaled e s
  then Some (record (WaitReturned e) (set_signaled e false s))
  else None.

(** One statement of the callback body for [quiesced] true. *)
Definition notifier_step (s : State) : option State :=
  match notifier s with
  | N_Idle => None
  | N_ResetSuspendComplete =>
      Some (notifier_at N_ResetSignalResume
              (record (ResetEvent SuspendComplete)
                 (set_signaled SuspendComplete false s)))
  | N_ResetSignalResume =>
      Some (notifier_at N_PostMessage
              (record (ResetEvent SignalResume)
                 (set_signaled SignalResume false s)))
  | N_PostMessage =>
      Some (notifier_at N_WaitSuspendComplete
              (record (PostMessage WM_USER)
                 (set_queue (queue s ++ [WM_USER]) s)))
  | N_WaitSuspendComplete =>
      notifier_at N_Idle <$> WaitForSingleObject SuspendComplete s
  end.

(** One statement of the main thread: the message loop takes the oldest
    message and hands it to [WndProc]; inside the [WM_USER] branch the
    statements run one by one.  Any other message goes to the window's own
    procedure or to [DefWindowProc], and the loop goes on. *)
Definition main_step (s : State) : option State :=
  match main s with
  | M_Loop =>
      match queue s with
      | [] => None
      | msg :: rest =>
          let s := record (Dispatched msg) (set_queue rest s) in
          if decide (msg = WM_USER)
          then Some (main_at M_LogSuspending s)
          else Some s
      end
  | M_LogSuspending => Some (main_at M_SetIsSuspended (record LOG_Suspending s))
  | M_SetIsSuspended => Some (main_at M_OnSuspend (set_IsSuspended true s))
  | M_OnSuspend => Some (main_at M_SetSuspendComplete (record OnSuspend s))
  | M_SetSuspendComplete =>
      Some (main_at M_WaitSignalResume
              (record (SetEvent SuspendComplete)
                 (set_signaled SuspendComplete true s)))
  | M_WaitSignalResume =>
      main_at M_ClearIsSuspended <$> WaitForSingleObject SignalResume s
  | M_ClearIsSuspended => Some (main_at M_LogResuming (set_IsSuspended false s))
  | M_LogResuming => Some (main_at M_OnResume (record LOG_Resuming s))
  | M_OnResume => Some (main_at M_DefWindowProc (record OnResume s))
  | M_DefWindowProc => Some (main_at M_Loop (record DefWindowProc s))
  end.

(** The OS calls the registered callback.  With [quiesced] true the
    notification thread enters the body; with [quiesced] false the body
    is the single [SetEvent(PlmSignalResume)]. *)
Definition notify (quiesced : bool) (s : State) : option State :=
  if callback_registered s then
    if quiesced then
      match notifier s with
      | N_Idle =>
          Some (notifier_at N_ResetSuspendComplete (record (Notified true) s))
      | _ => None
      end
    else
      Some (record (SetEvent SignalResume)
              (set_signaled SignalResume true (record (Notified false) s)))
  else None.

(** Anything else in the system may post a window message other than
    the wake-up. *)
Definition post (msg : MSG) (s : State) : option State :=
  if decide (msg = WM_USER) then None
  else Some (record (PostedByOthers msg) (set_queue (queue s ++ [msg]) s)).

Inductive Move : Set :=
| OS_notifies (quiesced : bool)
| Notifier_runs
| Main_runs
| OS_posts (msg : MSG).

Definition move (m : Move) (s : State) : option State :=
  match m with
  | OS_notifies quiesced => notify quiesced s
  | Notifier_runs => notifier_step s
  | Main_runs => main_step s
  | OS_posts msg => post msg s
  end.

(** A schedule is run move by move; a move that is not enabled makes
    the schedule impossible. *)
Fixpoint run (schedule : list Move) (s : State) : option State :=
  match schedule with
  | [] => Some s
  | m :: rest =>
      match move m s with
      | Some s' => run rest s'
      | None => None
      end
  end.

Definition start (setup : Setup) : State :=
  {| callback_registered := registered setup;
     SuspendComplete_signaled := false;
     SignalResume_signaled := false;
     IsSuspended := false;
     queue := [];
     notifier := N_Idle;
     main := M_Loop;
     history := [] |}.

(** [GDKPlatform::GetHasFocus] *)
Definition GetHasFocus (s : State) : bool := negb (IsSuspended s).

#[global] Instance Signal_eq_dec : EqDecision Signal.
Proof. solve_decision. Defined.

#[global] Instance Action_eq_dec : EqDecision Action.
Proof. solve_decision. Defined.

(** How often an action has happened so far. *)
Definition count (a : Action) (h : list Action) : nat :=
  length (filter (λ b, b = a) h).

Definition occurrences (a : Action) (s : State) : nat := count a (history s).

(** Wake-up messages still in the queue. *)
Definition pending (s : State) : nat :=
  length (filter (λ msg, msg = WM_USER) (queue s)).

(** The actions of the callback body. *)
Definition callback_action (a : Action) : bool :=
  match a with
  | ResetEvent _ | PostMessage _ | WaitReturned SuspendComplete => true
  | _ => false
  end.

(** What the callback body has done since the OS last entered it with
    [quiesced] true, oldest first. *)
Fixpoint callback_actions (h : list Action) : list Action :=
  match h with
  | [] => []
  | Notified true :: _ => []
  | a :: h' =>
      if callback_action a then callback_actions h' ++ [a]
      else callback_actions h'
  end.

(** The statements of the callback body that lie before each of its
    program points, in the order of the source; [entered] is how often the
    body has been entered. *)
Definition callback_script (pc : NotifierPC) (entered : nat) : list Action :=
  match pc with
  | N_ResetSuspendComplete => []
  | N_ResetSignalResume => [ResetEvent SuspendComplete]
  | N_PostMessage => [ResetEvent SuspendComplete; ResetEvent SignalResume]
  | N_WaitSuspendComplete =>
      [ResetEvent SuspendComplete; ResetEvent SignalResume; PostMessage WM_USER]
  | N_Idle =>
      match entered with
      | O => []
      | S _ => [ResetEvent SuspendComplete; ResetEvent SignalResume;
                PostMessage WM_USER; WaitReturned SuspendComplete]
      end
  end.

(** Program points counted as 1 when the thread stands at them. *)
Definition before_PostMessage (pc : NotifierPC) : nat :=
  match pc with
  | N_ResetSuspendComplete | N_ResetSignalResume | N_PostMessage => 1
  | _ => 0
  end.

Definition in_callback (pc : NotifierPC) : nat :=
  match pc with N_Idle => 0 | _ => 1 end.

Definition before_OnSuspend (pc : MainPC) : nat :=
  match pc with
  | M_LogSuspending | M_SetIsSuspended | M_OnSuspend => 1
  | _ => 0
  end.

Definition at_SetSuspendComplete (pc : MainPC) : nat :=
  match pc with M_SetSuspendComplete => 1 | _ => 0 end.

Definition before_OnResume (pc : MainPC) : nat :=
  match pc with
  | M_Loop | M_DefWindowProc => 0
  | _ => 1
  end.

(** What holds of every state the two threads can reach. *)
Record Invariant (s : State) : Prop :=
  { inv_registered :
      callback_registered s = false → occurrences (Notified true) s = 0%nat;
    inv_posted :
      (occurrences (PostMessage WM_USER) s + before_PostMessage (notifier s))%nat
      = occurrences (Notified true) s;
    inv_released :
      (occurrences (WaitReturned SuspendComplete) s + in_callback (notifier s))%nat
      = occurrences (Notified true) s;
    inv_queue :
      (pending s + occurrences (Dispatched WM_USER) s)%nat
      = occurrences (PostMessage WM_USER) s;
    inv_fired :
      (occurrences OnSuspend s + before_OnSuspend (main s))%nat
      = occurrences (Dispatched WM_USER) s;
    inv_acknowledged :
      (occurrences (SetEvent SuspendComplete) s
       + at_SetSuspendComplete (main s))%nat
      = occurrences OnSuspend s;
    inv_signal :
      (occurrences (WaitReturned SuspendComplete) s
       + (if SuspendComplete_signaled s then 1 else 0)
       ≤ occurrences (SetEvent SuspendComplete) s)%nat;
    inv_resumed :
      (occurrences OnResume s + before_OnResume (main s))%nat
      = occurrences (Dispatched WM_USER) s;
    inv_quiet :
      occurrences (Dispatched WM_USER) s = 0%nat →
      main s = M_Loop ∧ IsSuspended s = false;
    inv_script :
      callback_actions (history s)
      = callback_script (notifier s) (occurrences (Notified true) s) }.

End Lifecycle.

(** ** Message dialog *)

(** The three enumerations of [MessageBox::Show].  [MessageBoxButtons] and
    [DialogResult] are the engine's, [XGameUiMessageDialogButton] is the
    GDK's; the enumerators are the ones the function names, and [Unlisted]
    is any value of [MessageBoxButtons] its first switch has no case for. *)
Module MessageBoxButtons.
Inductive t : Set :=
| AbortRetryIgnore | OK | OKCancel | RetryCancel | YesNo | YesNoCancel
| Unlisted (n : Z).
End MessageBoxButtons.

Module DialogResult.
Inductive t : Set := Abort | Cancel | Ignore | No | None | OK | Retry | Yes.
End DialogResult.

Module XGameUiMessageDialogButton.
Inductive t : Set := First | Second | Third.
End XGameUiMessageDialogButton.

Module MessageBox.

(** What the first switch of [Show] assigns: the three button texts (a null
    [const char*] is [None]) and the default and cancel buttons. *)
Record Layout : Set :=
  { firstButtonText : option string;
    secondButtonText : option string;
    thirdButtonText : option string;
    defaultButton : XGameUiMessageDialogButton.t;
    cancelButton : XGameUiMessageDialogButton.t }.

(** The first [switch (buttons)]; [None] is its [default: return]. *)
Definition layout (buttons : MessageBoxButtons.t) : option Layout :=
  match buttons with
  | MessageBoxButtons.AbortRetryIgnore =>
      Some {| firstButtonText := Some "Abort";
              secondButtonText := Some "Retry";
              thirdButtonText := Some "Ignore";
              defaultButton := XGameUiMessageDialogButton.Second;
              cancelButton := XGameUiMessageDialogButton.Third |}
  | MessageBoxButtons.OK =>
      Some {| firstButtonText := Some "OK";
              secondButtonText := None;
              thirdButtonText := None;
              defaultButton := XGameUiMessageDialogButton.First;
              cancelButton := XGameUiMessageDialogButton.First |}
  | MessageBoxButtons.OKCancel =>
      Some {| firstButtonText := Some "OK";
              secondButtonText := Some "Cancel";
              thirdButtonText := None;
              defaultButton := XGameUiMessageDialogButton.First;
              cancelButton := XGameUiMessageDialogButton.Second |}
  | MessageBoxButtons.RetryCancel =>
      Some {| firstButtonText := Some "Retry";
              secondButtonText := Some "Cancel";
              thirdButtonText := None;
              defaultButton := XGameUiMessageDialogButton.First;
              cancelButton := XGameUiMessageDialogButton.Second |}
  | MessageBoxButtons.YesNo =>
      Some {| firstButtonText := Some "Yes";
              secondButtonText := Some "No";
              thirdButtonText := None;
              defaultButton := XGameUiMessageDialogButton.First;
              cancelButton := XGameUiMessageDialogButton.Second |}
  | MessageBoxButtons.YesNoCancel =>
      Some {| firstButtonText := Some "Yes";
              secondButtonText := Some "No";
              thirdButtonText := Some "Cancel";
              defaultButton := XGameUiMessageDialogButton.First;
              cancelButton := XGameUiMessageDialogButton.Third |}
  | MessageBoxButtons.Unlisted _ => None
  end.

(** The second [switch (buttons)], on the button the dialog reports. *)
Definition decode (buttons : MessageBoxButtons.t)
    (button : XGameUiMessageDialogButton.t) (result : DialogResult.t)
  : DialogResult.t :=
  match buttons with
  | MessageBoxButtons.AbortRetryIgnore =>
      match button with
      | XGameUiMessageDialogButton.First => DialogResult.Abort
      | XGameUiMessageDialogButton.Second => DialogResult.Retry
      | _ => DialogResult.Ignore
      end
  | MessageBoxButtons.OK => DialogResult.OK
  | MessageBoxButtons.OKCancel =>
      match button with
      | XGameUiMessageDialogButton.First => DialogResult.OK
      | _ => DialogResult.Cancel
      end
  | MessageBoxButtons.RetryCancel =>
      match button with
      | XGameUiMessageDialogButton.First => DialogResult.Retry
      | _ => DialogResult.Cancel
      end
  | MessageBoxButtons.YesNo =>
      match button with
      | XGameUiMessageDialogButton.First => DialogResult.Yes
      | _ => DialogResult.No
      end
  | MessageBoxButtons.YesNoCancel =>
      match button with
      | XGameUiMessageDialogButton.First => DialogResult.Yes
      | XGameUiMessageDialogButton.Second => DialogResult.No
      | _ => DialogResult.Cancel
      end
  | MessageBoxButtons.Unlisted _ => result
  end.

(** The calls [Show] makes, oldest first. *)
Inductive Call : Set :=
| XTaskQueueCreate
| new_XAsyncBlock
| XGameUiShowMessageDialogAsync (title content : list BYTE)
    (first second third : option string)
    (default cancel : XGameUiMessageDialogButton.t)
| XAsyncGetStatus (wait : bool)
| XGameUiShowMessageDialogResult
| XTaskQueueTerminate
| delete_XAsyncBlock.

(** What the runtime answers to the calls of [Show]: the four statuses and
    the button the user pressed. *)
Record OS : Set :=
  { XTaskQueueCreate_hr : HRESULT;
    XGameUiShowMessageDialogAsync_hr : HRESULT;
    XAsyncGetStatus_hr : HRESULT;
    XGameUiShowMessageDialogResult_hr : HRESULT;
    button : XGameUiMessageDialogButton.t }.

Section Show.
Variable StringAsANSI : list Char → list BYTE.

(** [MessageBox::Show].  [parent] and [icon] are not used by the function
    and are left out.  The three conditions joined by [&&] are evaluated
    left to right, and a failed one ends the evaluation. *)
Definition Show (os : OS) (text caption : list Char)
    (buttons : MessageBoxButtons.t) : DialogResult.t * list Call :=
  match layout buttons with
  | None => (DialogResult.None, [])
  | Some l =>
      let textAnsi := StringAsANSI text in
      let captionAnsi := StringAsANSI caption in
      let result := DialogResult.None in
      if FAILED (XTaskQueueCreate_hr os) then
        (DialogResult.None, [XTaskQueueCreate])
      else
        let calls := [XTaskQueueCreate; new_XAsyncBlock] in
        let calls :=
          calls ++ [XGameUiShowMessageDialogAsync captionAnsi textAnsi
                      (firstButtonText l) (secondButtonText l)
                      (thirdButtonText l) (defaultButton l) (cancelButton l)] in
        let '(result, calls) :=
          if SUCCEEDED (XGameUiShowMessageDialogAsync_hr os) then
            let calls := calls ++ [XAsyncGetStatus true] in
            if SUCCEEDED (XAsyncGetStatus_hr os) then
              let calls := calls ++ [XGameUiShowMessageDialogResult] in
              if SUCCEEDED (XGameUiShowMessageDialogResult_hr os) then
                (decode buttons (button os) result, calls)
              else (result, calls)
            else (result, calls)
          else (result, calls) in
        (result, calls ++ [XTaskQueueTerminate; delete_XAsyncBlock])
  end.
End Show.

(** *** Vocabulary of the statements below *)

(** The text on a button of the dialog, if the button is shown. *)
Definition text_on (l : Layout) (b : XGameUiMessageDialogButton.t)
  : option string :=
  match b with
  | XGameUiMessageDialogButton.First => firstButtonText l
  | XGameUiMessageDialogButton.Second => secondButtonText l
  | XGameUiMessageDialogButton.Third => thirdButtonText l
  end.

(** The name of a result. *)
Definition name (r : DialogResult.t) : string :=
  match r with
  | DialogResult.Abort => "Abort" | DialogResult.Cancel => "Cancel"
  | DialogResult.Ignore => "Ignore" | DialogResult.No => "No"
  | DialogResult.None => "None" | DialogResult.OK => "OK"
  | DialogResult.Retry => "Retry" | DialogResult.Yes => "Yes"
  end.

(** All four runtime calls of [Show] succeed. *)
Definition all_succeed (os : OS) : Prop :=
  SUCCEEDED (XTaskQueueCreate_hr os) = true
  ∧ SUCCEEDED (XGameUiShowMessageDialogAsync_hr os) = true
  ∧ SUCCEEDED (XAsyncGetStatus_hr os) = true
  ∧ SUCCEEDED (XGameUiShowMessageDialogResult_hr os) = true.

#[global] Instance XGameUiMessageDialogButton_eq_dec :
  EqDecision XGameUiMessageDialogButton.t.
Proof. solve_decision. Defined.

#[global] Instance DialogResult_eq_dec : EqDecision DialogResult.t.
Proof. solve_decision. Defined.

#[global] Instance Call_eq_dec : EqDecision Call.
Proof. solve_decision. Defined.

End MessageBox.

(** ** Environment block *)

Module Environment.

Abbreviation WCHAR := Z (only parsing).

(** [String] is a list of code units; [Dictionary<String, String>] is a
    finite map, and [result[key] = value] inserts or overwrites. *)
Abbreviation String := (list Z) (only parsing).
Abbreviation Dictionary := (gmap (list Z) (list Z)) (only parsing).

(** The null-terminated string at a pointer into the block: the code
    units before the first terminator, and the block after it.  [None] is
    a block that ends before a terminator is met. *)
Fixpoint c_str (p : list WCHAR) : option (String * list WCHAR) :=
  match p with
  | [] => None
  | c :: rest =>
      if decide (c = 0) then Some ([], rest)
      else '(line, after) ← c_str rest; Some (c :: line, after)
  end.

(** The offset of the first ["="] in a string, [wcschr(env, '=') - env];
    [None] is the null pointer [wcschr] returns when there is none. *)
Fixpoint wcschr (line : String) : option nat :=
  match line with
  | [] => None
  | c :: rest => if decide (c = 61) then Some 0%nat else S <$> wcschr rest
  end.

(** How the walk over the block ends. *)
Inductive Outcome : Type :=
| Parsed (result : Dictionary)
| AssertionFailed
| ReadPastEnd.

(** The outer [while] loop of [GetEnvironmentVariables], which runs until
    [env] points at a terminator.  A
    string that does not start with ["="] is split at its first ["="]:
    [String(env, str - env)] is the name and [str + 1], up to the
    terminator, the value.  The inner loop and [env++] move to the code unit
    after the terminator. *)
Equations? walk (env : list WCHAR) (result : Dictionary) : Outcome
  by wf (length env) lt :=
  walk [] result := ReadPastEnd;
  walk (c :: rest) result with decide (c = 0) => {
    | left _ := Parsed result;
    | right _ with inspect (c_str (c :: rest)) => {
      | exist _ None _ := ReadPastEnd;
      | exist _ (Some (line, after)) _ with decide (c = 61) => {
        | left _ := walk after result;
        | right _ with wcschr line => {
          | None := AssertionFailed;
          | Some k := walk after (<[take k line := drop (S k) line]> result) } } } }.
Proof.
  all: assert (∀ p l a, c_str p = Some (l, a) → (length a < length p)%nat)
    as Hlen
    by (induction p as [|x p IH]; intros l a; simpl; [done|];
        destruct (decide (x = 0)); [intros [= _ <-]; lia|];
        destruct (c_str p) as [[l' a']|] eqn:Hp; simpl; [|done];
        intros [= _ <-]; specialize (IH _ _ eq_refl); lia).
  - apply (Hlen (61 :: rest) line after). exact e.
  - apply (Hlen (c :: rest) line after). simpl.
    destruct (decide (c = 0)); [done|]. exact e.
Qed.

(** [GDKPlatform::GetEnvironmentVariables]: [environmentStr] is what
    [GetEnvironmentStringsW] returns ([None] is null).  The second component
    tells whether [FreeEnvironmentStringsW] is reached. *)
Definition GetEnvironmentVariables (environmentStr : option (list WCHAR))
    (result : Dictionary) : Outcome * bool :=
  match environmentStr with
  | Some block =>
      match walk block result with
      | Parsed result => (Parsed result, true)
      | stopped => (stopped, false)
      end
  | None => (Parsed result, false)
  end.

(** *** Vocabulary of the statements below *)

(** A string of the block: a variable with its name and value, or a string
    that starts with ["="] (the per-drive current directories). *)
Inductive Line : Type :=
| Variable_line (name value : String)
| Hidden_line (text : String).

Definition line_text (l : Line) : String :=
  match l with
  | Variable_line name value => name ++ [61] ++ value
  | Hidden_line text => 61 :: text
  end.

(** The block the OS builds from the strings: each with its terminator,
    and a last terminator. *)
Definition block_of (lines : list Line) : list WCHAR :=
  concat ((λ l, line_text l ++ [0]) <$> lines) ++ [0].

Definition well_formed (l : Line) : Prop :=
  match l with
  | Variable_line name value =>
      name ≠ [] ∧ (61 ∉ name) ∧ (0 ∉ name) ∧ (0 ∉ value)
  | Hidden_line text => 0 ∉ text
  end.

(** The map after the variables have been stored one after the other. *)
Definition store (result : Dictionary) (l : Line) : Dictionary :=
  match l with
  | Variable_line name value => <[name := value]> result
  | Hidden_line _ => result
  end.

(** The value a string gives to [name], if it sets it. *)
Definition sets (name : String) (l : Line) : option String :=
  match l with
  | Variable_line n value => if decide (n = name) then Some value else None
  | Hidden_line _ => None
  end.

End Environment.

(** ** The resume half of the handshake *)

Module Resume.
Import Lifecycle.

#[global] Instance MainPC_eq_dec : EqDecision MainPC.
Proof. solve_decision. Defined.

(** Program points of the main thread at which [IsSuspended] is set:
    after the assignment of [true] and up to the assignment of [false]. *)
Definition flag_at (pc : MainPC) : bool :=
  match pc with
  | M_OnSuspend | M_SetSuspendComplete | M_WaitSignalResume
  | M_ClearIsSuspended => true
  | _ => false
  end.

(** Program points between the return of the wait for [PlmSignalResume]
    and the firing of [OnResume], counted as 1. *)
Definition before_OnResume_after_wait (pc : MainPC) : nat :=
  match pc with
  | M_ClearIsSuspended | M_LogResuming | M_OnResume => 1
  | _ => 0
  end.

(** What holds, besides [Invariant], of every state the two threads can
    reach. *)
Record ResumeInvariant (s : State) : Prop :=
  { res_flag : IsSuspended s = flag_at (main s);
    res_wait :
      (occurrences OnResume s + before_OnResume_after_wait (main s))%nat
      = occurrences (WaitReturned SignalResume) s;
    res_signal :
      (occurrences (WaitReturned SignalResume) s
       + (if SignalResume_signaled s then 1 else 0)
       ≤ occurrences (Notified false) s)%nat;
    res_acknowledged :
      (occurrences (WaitReturned SuspendComplete) s
       + (if SuspendComplete_signaled s then 1 else 0))%nat
      = occurrences (SetEvent SuspendComplete) s }.

(** The messages the main thread has to take off the queue before it
    comes to the first wake-up. *)
Fixpoint messages_before_wake_up (q : list MSG) : nat :=
  match q with
  | [] => 0
  | msg :: rest =>
      if decide (msg = WM_USER) then 0 else S (messages_before_wake_up rest)
  end.

(** The statements the main thread has to run from its program point
    until [SetEvent(PlmSuspendComplete)] has run for the next wake-up in the
    queue: none if the event is signaled already; else what is left of the
    handler it is in, up to [SetEvent] or through [OnResume] back to the
    loop, then the messages before the wake-up, the wake-up and the four
    statements up to [SetEvent]. *)
Definition moves_to_acknowledge (s : State) : nat :=
  if SuspendComplete_signaled s then 0
  else
    match main s with
    | M_SetSuspendComplete => 1
    | M_OnSuspend => 2
    | M_SetIsSuspended => 3
    | M_LogSuspending => 4
    | M_Loop => 5 + messages_before_wake_up (queue s)
    | M_DefWindowProc => 6 + messages_before_wake_up (queue s)
    | M_OnResume => 7 + messages_before_wake_up (queue s)
    | M_LogResuming => 8 + messages_before_wake_up (queue s)
    | M_ClearIsSuspended => 9 + messages_before_wake_up (queue s)
    | M_WaitSignalResume => 10 + messages_before_wake_up (queue s)
    end.

(** Both threads stand in a wait whose event is unsignaled: the callback in
    [WaitForSingleObject(PlmSuspendComplete)], the main thread in
    [WaitForSingleObject(PlmSignalResume)]. *)
Definition both_wait (s : State) : Prop :=
  notifier s = N_WaitSuspendComplete ∧ SuspendComplete_signaled s = false
  ∧ main s = M_WaitSignalResume ∧ SignalResume_signaled s = false.

#[global] Instance NotifierPC_eq_dec : EqDecision NotifierPC.
Proof. solve_decision. Defined.

#[global] Instance both_wait_dec s : Decision (both_wait s).
Proof. unfold both_wait. apply _. Defined.

End Resume.

(** ** Text of a device identifier *)

Module DeviceText.

(** [*reinterpret_cast<const unsigned int*>(&deviceId.value[offset])]: the
    four bytes from [offset] on, read as one unsigned 32-bit number, lowest
    byte first (the byte order of every target of this platform layer). *)
Definition read_unsigned_int (bytes : list BYTE) (offset : nat) : Z :=
  match take 4 (drop offset bytes) with
  | [b0; b1; b2; b3] =>
      Z.of_N (Byte.to_N b0) + 2 ^ 8 * Z.of_N (Byte.to_N b1)
      + 2 ^ 16 * Z.of_N (Byte.to_N b2) + 2 ^ 24 * Z.of_N (Byte.to_N b3)
  | _ => 0
  end.

(** The eight numbers [ToString] hands to [String::Format], in the order
    of the placeholders of ["{}-{}-{}-{}-{}-{}-{}-{}"]. *)
Definition ToString_arguments (deviceId : APP_LOCAL_DEVICE_ID) : list Z :=
  let bytes := vec_to_list (device_value deviceId) in
  [read_unsigned_int bytes 0; read_unsigned_int bytes 4;
   read_unsigned_int bytes 8; read_unsigned_int bytes 12;
   read_unsigned_int bytes 16; read_unsigned_int bytes 20;
   read_unsigned_int bytes 24; read_unsigned_int bytes 28].

Section ToString.
(** [String::Format] (Engine/Core/Types/String.h) renders the numbers into
    the placeholders of the format text; it is a parameter. *)
Variable String_Format : list Z → string.

(** [ToString(const APP_LOCAL_DEVICE_ID&)] *)
Definition ToString (deviceId : APP_LOCAL_DEVICE_ID) : string :=
  String_Format (ToString_arguments deviceId).
End ToString.

End DeviceText.

(** ** Start *)

Module Startup.

(** What the OS and the engine answer to the calls of
    [GDKPlatform::Init]: the result of [Win32Platform::Init] (true is
    failure), the two names ([None] when the call returns zero), and the
    statuses of the two runtime calls. *)
Record OS : Set :=
  { Win32Platform_Init : bool;
    GetUserDefaultLocaleName : option string;
    GetComputerNameW : option string;
    XTaskQueueCreate_hr : HRESULT;
    XUserAddAsync_hr : HRESULT }.

Inductive Call : Set :=
| XTaskQueueCreate
| XUserRegisterForChangeEvent
| XUserRegisterForDeviceAssociationChanged
| new_XAsyncBlock
| XUserAddAsync
| delete_XAsyncBlock
| GDKInput_Init.

#[global] Instance Call_eq_dec : EqDecision Call.
Proof. solve_decision. Defined.

(** The globals [Init] writes: the two names (empty until set), whether
    [TaskQueue] is non-null, and the calls made so far, oldest first. *)
Record Globals : Set :=
  { UserLocale : string;
    ComputerName : string;
    TaskQueue : bool;
    calls : list Call }.

Definition initial : Globals :=
  {| UserLocale := ""; ComputerName := ""; TaskQueue := false; calls := [] |}.

Definition call (c : Call) (g : Globals) : Globals :=
  {| UserLocale := UserLocale g; ComputerName := ComputerName g;
     TaskQueue := TaskQueue g; calls := calls g ++ [c] |}.

(** [GDKPlatform::Init]; the result true is failure. *)
Definition Init (os : OS) (g : Globals) : bool * Globals :=
  if Win32Platform_Init os then (true, g)
  else
    let g :=
      match GetUserDefaultLocaleName os with
      | Some name =>
          {| UserLocale := name; ComputerName := ComputerName g;
             TaskQueue := TaskQueue g; calls := calls g |}
      | None => g
      end in
    let g :=
      match GetComputerNameW os with
      | Some name =>
          {| UserLocale := UserLocale g; ComputerName := name;
             TaskQueue := TaskQueue g; calls := calls g |}
      | None => g
      end in
    let g := call XTaskQueueCreate g in
    if FAILED (XTaskQueueCreate_hr os) then (true, g)
    else
      let g :=
        {| UserLocale := UserLocale g; ComputerName := ComputerName g;
           TaskQueue := true; calls := calls g |} in
      let g := call XUserRegisterForChangeEvent g in
      let g := call XUserRegisterForDeviceAssociationChanged g in
      let g := call new_XAsyncBlock g in
      let g := call XUserAddAsync g in
      let g :=
        if FAILED (XUserAddAsync_hr os) then call delete_XAsyncBlock g
        else g in
      let g := call GDKInput_Init g in
      (false, g).

(** *** Vocabulary of the statements below *)

Definition times (c : Call) (g : Globals) : nat :=
  length (filter (λ x, x = c) (calls g)).

(** The sign-in request of [Init] is with the runtime, which owns the
    async block until it delivers the completion. *)
Definition sign_in_pending (os : OS) : bool :=
  negb (Win32Platform_Init os)
  && SUCCEEDED (XTaskQueueCreate_hr os)
  && SUCCEEDED (XUserAddAsync_hr os).

End Startup.

(** ** Sample data for the worked examples *)

Module Sample.
Import Registry Lifecycle.

(** A runtime in which handle [1000 + n] stands for the user with local
    id [n]. *)
Definition XUserGetLocalId (h : XUserHandle) : XUserLocalId :=
  {| value := h - 1000 |}.

Definition user (n : Z) (devices : list APP_LOCAL_DEVICE_ID) : User :=
  {| UserHandle := 1000 + n;
     LocalId := {| value := n |};
     AssociatedDevices := devices |}.

(** A sign-in of user [n] that succeeded with [S_OK]. *)
Definition sign_in (n : Z) : XAsyncBlock :=
  {| block := n; result := 0; resultUser := 1000 + n |}.

(** A sign-in that failed with [E_FAIL]. *)
Definition failed_sign_in : XAsyncBlock :=
  {| block := 99; result := -2147467259; resultUser := 0 |}.

Definition one_user : Globals := {| Users := [user 7 []]; Trace := [] |}.

(** A registry with all 8 slots taken, by the users 1 to 8. *)
Definition full : Globals :=
  {| Users := (λ n, user n []) <$> [1; 2; 3; 4; 5; 6; 7; 8]; Trace := [] |}.

Definition gamepad : APP_LOCAL_DEVICE_ID :=
  {| device_value := vreplicate sizeof_APP_LOCAL_DEVICE_ID Byte.x2a |}.

(** The gamepad goes from a user the registry does not hold to user 7. *)
Definition gamepad_to_7 : XUserDeviceAssociationChange :=
  {| deviceId := gamepad;
     oldUser := {| value := 0 |};
     newUser := {| value := 7 |} |}.

(** The OS hands out both events and accepts the registration. *)
Definition healthy_os : OS :=
  {| CreateEventEx_1 := 1001;
     CreateEventEx_2 := 1002;
     RegisterAppStateChangeNotification_status := 0 |}.

(** The OS fails to create the first event. *)
Definition exhausted_os : OS :=
  {| CreateEventEx_1 := 0;
     CreateEventEx_2 := 1002;
     RegisterAppStateChangeNotification_status := 0 |}.

Definition registered_setup : Setup :=
  {| PlmSuspendComplete := 1001;
     PlmSignalResume := 1002;
     registered := true;
     calls := [CreateEventEx; CreateEventEx;
               RegisterAppStateChangeNotification] |}.

(** One suspend and resume: the OS notifies, the callback resets, resets,
    posts and waits; the main thread takes the message, logs, sets the
    flag, fires [OnSuspend] and sets the event; the callback returns; the OS
    signals resume; the main thread goes on to [OnResume] and back to its
    loop. *)
Definition one_handshake : list Move :=
  [OS_notifies true; Notifier_runs; Notifier_runs; Notifier_runs;
   Main_runs; Main_runs; Main_runs; Main_runs; Main_runs;
   Notifier_runs;
   OS_notifies false;
   Main_runs; Main_runs; Main_runs; Main_runs; Main_runs].

Definition after_one_handshake : State :=
  Eval vm_compute in
    default (start registered_setup) (run one_handshake (start registered_setup)).

(** The same up to the point where the main thread has dispatched the
    wake-up but not yet set the event: the callback is waiting. *)
Definition until_OnSuspend : list Move :=
  [OS_notifies true; Notifier_runs; Notifier_runs; Notifier_runs;
   Main_runs; Main_runs; Main_runs; Main_runs].

Definition callback_waiting : State :=
  Eval vm_compute in
    default (start registered_setup)
      (run until_OnSuspend (start registered_setup)).

(** A suspend, the resume, and a second suspend that arrives before the
    main thread has left its wait for [PlmSignalResume]: the second run of
    the callback resets the event the resume has just set. *)
Definition second_suspend_overtakes : list Move :=
  [OS_notifies true; Notifier_runs; Notifier_runs; Notifier_runs;
   Main_runs; Main_runs; Main_runs; Main_runs; Main_runs;
   Notifier_runs;
   OS_notifies false;
   OS_notifies true; Notifier_runs; Notifier_runs; Notifier_runs].

Definition both_waiting : State :=
  Eval vm_compute in
    default (start registered_setup)
      (run second_suspend_overtakes (start registered_setup)).

(** Narrowing that keeps the code units below 256. *)
Definition narrow (text : list Char) : list BYTE :=
  omap (λ c, Byte.of_N (Z.to_N c)) text.

(** A runtime whose dialog calls all succeed and whose user presses the
    second button. *)
Definition second_pressed : MessageBox.OS :=
  {| MessageBox.XTaskQueueCreate_hr := 0;
     MessageBox.XGameUiShowMessageDialogAsync_hr := 0;
     MessageBox.XAsyncGetStatus_hr := 0;
     MessageBox.XGameUiShowMessageDialogResult_hr := 0;
     MessageBox.button := XGameUiMessageDialogButton.Second |}.

(** The strings ["PATH=C:"], ["=C:=C:"], ["A=b=c"] and ["PATH=D:"]. *)
Definition some_lines : list Environment.Line :=
  [Environment.Variable_line [80; 65; 84; 72] [67; 58];
   Environment.Hidden_line [67; 58; 61; 67; 58];
   Environment.Variable_line [65] [98; 61; 99];
   Environment.Variable_line [80; 65; 84; 72] [68; 58]].

(** User 7 with the gamepad. *)
Definition user_with_gamepad : Globals :=
  {| Users := [user 7 [gamepad]]; Trace := [] |}.

End Sample.

(** * Properties *)

(** ** The array container *)

Section ArrayFacts.
Context {T : Type}.
Implicit Types (a : list T) (order : Array.RemovalOrder).

Lemma RemoveAt_out_of_range order i a :
  (length a ≤ i)%nat → Array.RemoveAt order i a = a.
Proof.
  intros Hi. unfold Array.RemoveAt, Array.Count.
  destruct (decide (i < length a)%nat); [lia | done].
Qed.

Lemma RemoveAt_KeepOrder i a :
  (i < length a)%nat → Array.RemoveAt Array.KeepOrder i a = delete i a.
Proof.
  intros Hi. unfold Array.RemoveAt, Array.Count.
  destruct (decide (i < length a)%nat); [done | lia].
Qed.

(** Moving the last item into the hole gives the items of [delete]. *)
Lemma swap_with_last_Permutation i a moved :
  (i < length a)%nat → last a = Some moved →
  take (length a - 1) (<[i := moved]> a) ≡ₚ delete i a.
Proof.
  intros Hi Hlast.
  destruct a as [|x a0 _] using rev_ind; [done|].
  rewrite last_snoc in Hlast. injection Hlast as ->.
  rewrite length_app in *. simpl in *.
  replace (length a0 + 1 - 1)%nat with (length a0) by lia.
  destruct (decide (i < length a0)%nat) as [Hlt|Hge].
  - destruct (lookup_lt_is_Some_2 a0 i Hlt) as [y Hy].
    rewrite insert_app_l by done.
    rewrite take_app_length' by (by rewrite length_insert).
    rewrite delete_take_drop.
    rewrite take_app_le by lia.
    rewrite drop_app_le by lia.
    rewrite <- (take_drop_middle a0 i y Hy) at 1.
    rewrite insert_app_r_alt by (rewrite length_take; lia).
    rewrite length_take. replace (i - i `min` length a0)%nat with 0%nat by lia.
    simpl. rewrite (assoc_L (++)). rewrite <- Permutation_middle.
    apply Permutation_cons_append.
  - assert (i = length a0) as -> by lia.
    rewrite insert_app_r_alt by lia.
    replace (length a0 - length a0)%nat with 0%nat by lia. simpl.
    rewrite take_app_length.
    rewrite delete_take_drop, take_app_length.
    rewrite drop_ge by (rewrite length_app; simpl; lia).
    by rewrite (right_id_L [] (++)).
Qed.

Lemma RemoveAt_Permutation order i a :
  (i < length a)%nat → Array.RemoveAt order i a ≡ₚ delete i a.
Proof.
  intros Hi. unfold Array.RemoveAt, Array.Count.
  destruct (decide (i < length a)%nat); [|lia].
  destruct order; [done|].
  destruct (last a) as [moved|] eqn:Hlast.
  - by apply swap_with_last_Permutation.
  - apply last_None in Hlast. subst a. simpl in Hi. lia.
Qed.

Lemma RemoveAt_length order i a :
  (i < length a)%nat → length (Array.RemoveAt order i a) = (length a - 1)%nat.
Proof.
  intros Hi. rewrite (RemoveAt_Permutation order i a Hi).
  rewrite length_delete; [done|]. by apply lookup_lt_is_Some_2.
Qed.

Lemma RemoveAt_fmap {U : Type} (f : T → U) order i a :
  f <$> Array.RemoveAt order i a = Array.RemoveAt order i (f <$> a).
Proof.
  unfold Array.RemoveAt, Array.Count. rewrite length_fmap.
  destruct (decide (i < length a)%nat); [|done].
  destruct order; [apply list_fmap_delete|].
  rewrite fmap_last. destruct (last a) as [moved|]; simpl; [|done].
  by rewrite fmap_take, list_fmap_insert.
Qed.

Lemma RemoveAt_NoDup order i a : NoDup a → NoDup (Array.RemoveAt order i a).
Proof.
  intros Ha. destruct (decide (i < length a)%nat) as [Hi|Hi].
  - rewrite (RemoveAt_Permutation order i a Hi).
    eapply sublist_NoDup; [done | apply sublist_delete].
  - by rewrite RemoveAt_out_of_range by lia.
Qed.

(** The index [Find] returns holds an item equal to the one sought. *)
Lemma Find_from_Some (equals : T → T → bool) item a k j :
  Array.Find_from equals item a k = Some j →
  ∃ x, (k ≤ j)%nat ∧ a !! (j - k)%nat = Some x ∧ equals x item = true.
Proof.
  revert k. induction a as [|y a IH]; intros k; simpl; [done|].
  destruct (equals y item) eqn:Hy.
  - intros [= <-]. exists y. replace (k - k)%nat with 0%nat by lia. done.
  - intros (x & Hk & Hx & Heq)%IH. exists x. split_and!; [lia| |done].
    replace (j - k)%nat with (S (j - S k)) by lia. done.
Qed.

Lemma Find_from_None (equals : T → T → bool) item a k :
  Array.Find_from equals item a k = None →
  ∀ x, x ∈ a → equals x item = false.
Proof.
  revert k. induction a as [|y a IH]; intros k; simpl.
  - intros _ x Hx. by apply elem_of_nil in Hx.
  - destruct (equals y item) eqn:Hy; [done|].
    intros Hnone x [->|Hx]%elem_of_cons; eauto.
Qed.

End ArrayFacts.

(** ** The session registry *)

Section RegistryFacts.
Import Registry.
Variable XUserGetLocalId : XUserHandle → XUserLocalId.
Variable order : Array.RemovalOrder.
Implicit Types (g : Globals) (id : XUserLocalId) (u : User).

Lemma ids_emit e g : ids (emit e g) = ids g.
Proof. done. Qed.

Lemma sessions_ids g1 g2 : sessions g1 = sessions g2 → ids g1 = ids g2.
Proof.
  unfold sessions, ids. intros H.
  apply (f_equal (fmap (λ p : XUserHandle * XUserLocalId, value p.2))) in H.
  by rewrite <- !list_fmap_compose in H.
Qed.

(** Writing through a pointer with a function that keeps handle and id
    keeps the sessions. *)
Lemma sessions_through p (f : User → User) g :
  (∀ u, UserHandle (f u) = UserHandle u ∧ LocalId (f u) = LocalId u) →
  sessions (through p f g) = sessions g.
Proof.
  intros Hf. unfold through, sessions.
  destruct (Users g !! p) as [u|] eqn:Hp; [|done]. simpl.
  rewrite list_fmap_insert.
  destruct (Hf u) as [-> ->].
  apply list_insert_id. by rewrite list_lookup_fmap, Hp.
Qed.

Lemma Trace_through p (f : User → User) g : Trace (through p f g) = Trace g.
Proof. unfold through. by destruct (Users g !! p). Qed.

Lemma through_lookup_ne p (f : User → User) g i :
  i ≠ p → Users (through p f g) !! i = Users g !! i.
Proof.
  intros Hi. unfold through. destruct (Users g !! p); [|done].
  simpl. by apply list_lookup_insert_ne.
Qed.

Lemma through_lookup p (f : User → User) g u :
  Users g !! p = Some u → Users (through p f g) !! p = Some (f u).
Proof.
  intros Hp. unfold through. rewrite Hp. simpl.
  apply list_lookup_insert_eq. by eapply lookup_lt_Some.
Qed.

Lemma through_length p (f : User → User) g :
  length (Users (through p f g)) = length (Users g).
Proof.
  unfold through. destruct (Users g !! p); [|done]. simpl. apply length_insert.
Qed.

(** [FindUser] returns the least index holding the id, and null exactly
    when no session holds it. *)
Lemma FindUser_from_Some id us k i :
  FindUser_from id us k = Some i ↔
  (k ≤ i)%nat ∧ (∃ u, us !! (i - k)%nat = Some u ∧ value (LocalId u) = value id) ∧
  ∀ j u, (j < i - k)%nat → us !! j = Some u → value (LocalId u) ≠ value id.
Proof.
  revert k. induction us as [|x us IH]; intros k; simpl.
  - split; [done|]. by intros (_ & (u & Hu & _) & _).
  - destruct (decide (value (LocalId x) = value id)) as [Hx|Hx].
    + split.
      * intros [= <-]. replace (k - k)%nat with 0%nat by lia.
        split_and!; [lia|by exists x|intros; lia].
      * intros (Hk & (u & Hu & Hid) & Hleast).
        destruct (i - k)%nat as [|n] eqn:Hn; [f_equal; lia|].
        destruct (Hleast 0%nat x); [lia|done|done].
    + rewrite IH. split.
      * intros (Hk & (u & Hu & Hid) & Hleast).
        replace (i - k)%nat with (S (i - S k)) by lia.
        split_and!; [lia|by exists u|].
        intros [|j] u' Hj Hu'; simpl in Hu'; [by injection Hu' as <-|].
        apply (Hleast j u'); [lia|done].
      * intros (Hk & (u & Hu & Hid) & Hleast).
        destruct (i - k)%nat as [|n] eqn:Hn; simpl in Hu.
        { injection Hu as <-. done. }
        replace (i - S k)%nat with n by lia.
        split_and!; [lia|by exists u|].
        intros j u' Hj Hu'. apply (Hleast (S j) u'); [lia|done].
Qed.

Lemma FindUser_Some id g i :
  FindUser id g = Some i ↔
  (∃ u, Users g !! i = Some u ∧ value (LocalId u) = value id) ∧
  ∀ j u, (j < i)%nat → Users g !! j = Some u → value (LocalId u) ≠ value id.
Proof.
  unfold FindUser. rewrite FindUser_from_Some.
  replace (i - 0)%nat with i by lia. intuition lia.
Qed.

Lemma FindUser_from_None id us k :
  FindUser_from id us k = None ↔ value id ∉ (λ u, value (LocalId u)) <$> us.
Proof.
  revert k. induction us as [|x us IH]; intros k; simpl.
  - split; [intros _; apply not_elem_of_nil|done].
  - rewrite not_elem_of_cons.
    destruct (decide (value (LocalId x) = value id)) as [Hx|Hx].
    + split; [done|]. intros [? _]. congruence.
    + rewrite IH. split; [by intros ?; split | by intros [_ ?]].
Qed.

Lemma FindUser_None id g : FindUser id g = None ↔ value id ∉ ids g.
Proof. apply FindUser_from_None. Qed.

(** The search looks at the ids only. *)
Lemma FindUser_from_ids id us1 us2 k :
  (λ u, value (LocalId u)) <$> us1 = (λ u, value (LocalId u)) <$> us2 →
  FindUser_from id us1 k = FindUser_from id us2 k.
Proof.
  revert us2 k. induction us1 as [|x us1 IH]; intros [|y us2] k; simpl; try done.
  intros [= Hxy Hrest]. rewrite Hxy.
  destruct (decide (value (LocalId y) = value id)); [done|]. by apply IH.
Qed.

Lemma FindUser_ids id g1 g2 : ids g1 = ids g2 → FindUser id g1 = FindUser id g2.
Proof. apply FindUser_from_ids. Qed.

(** The [SignedOut] loop started at index 0 stops at the index [FindUser]
    would return, and runs its body there. *)
Lemma SignedOut_loop_scan id n i g :
  n = (length (Users g) - i)%nat →
  SignedOut_loop order id n i g =
    match FindUser_from id (drop i (Users g)) i with
    | Some j => sign_out_at order j g
    | None => g
    end.
Proof.
  revert i. induction n as [|n IH]; intros i Hn; simpl.
  - rewrite drop_ge by lia. done.
  - unfold Array.At.
    destruct (Users g !! i) as [u|] eqn:Hi.
    2:{ apply lookup_ge_None in Hi. lia. }
    rewrite (drop_S _ _ _ Hi). simpl.
    destruct (decide (value (LocalId u) = value id)); [done|].
    apply IH. lia.
Qed.

Lemma UserChangeEventCallback_SignedOut id g :
  UserChangeEventCallback order id SignedOut g =
    let g0 := emit (sign_out_line id) g in
    match FindUser id g with
    | Some i => sign_out_at order i g0
    | None => g0
    end.
Proof.
  unfold UserChangeEventCallback. simpl.
  rewrite SignedOut_loop_scan by (unfold Array.Count; simpl; lia).
  done.
Qed.

Lemma User_Unset_sessions i g : sessions (User_Unset i g) = sessions g.
Proof.
  unfold User_Unset. destruct (Users g !! i); [|done].
  by rewrite sessions_through.
Qed.

Lemma User_Unset_Trace i g u :
  Users g !! i = Some u →
  Trace (User_Unset i g) = Trace g ++ [XUserCloseHandle (UserHandle u)].
Proof. intros Hi. unfold User_Unset. rewrite Hi. by rewrite Trace_through. Qed.

Lemma User_Unset_length i g : length (Users (User_Unset i g)) = length (Users g).
Proof.
  unfold User_Unset. destruct (Users g !! i); [|done].
  by rewrite through_length.
Qed.

Lemma sign_out_at_sessions i g :
  sessions (sign_out_at order i g) = Array.RemoveAt order i (sessions g).
Proof.
  unfold sign_out_at. unfold sessions at 1. simpl.
  rewrite RemoveAt_fmap. f_equal. apply User_Unset_sessions.
Qed.

Lemma sign_out_at_ids i g :
  ids (sign_out_at order i g) = Array.RemoveAt order i (ids g).
Proof.
  pose proof (sign_out_at_sessions i g) as H.
  apply (f_equal (fmap (λ p : XUserHandle * XUserLocalId, value p.2))) in H.
  rewrite RemoveAt_fmap in H. unfold sessions in H.
  by rewrite <- !list_fmap_compose in H.
Qed.

(** The registry after [AddUserComplete]. *)
Lemma AddUserComplete_Users ab g :
  Users (AddUserComplete XUserGetLocalId ab g) =
    if SUCCEEDED (result ab) then
      if decide (value (XUserGetLocalId (resultUser ab)) ∈ ids g) then Users g
      else if decide (length (Users g) < Users_Capacity)%nat then
        Users g ++ [ {| UserHandle := resultUser ab;
                        LocalId := XUserGetLocalId (resultUser ab);
                        AssociatedDevices := [] |} ]
      else Users g
    else Users g.
Proof.
  unfold AddUserComplete, XUserAddResult. simpl.
  destruct (SUCCEEDED (result ab)); [|done].
  destruct (FindUser (XUserGetLocalId (resultUser ab)) g) as [i|] eqn:Hfind.
  - destruct (decide (_ ∈ ids g)) as [|Hnot]; [done|].
    apply FindUser_None in Hnot. congruence.
  - destruct (decide (_ ∈ ids g)) as [Hin|_].
    { apply FindUser_None in Hfind. done. }
    unfold Array.AddOne, Array.Count.
    destruct (decide (length (Users g) < Users_Capacity)%nat); [|done].
    unfold through. simpl.
    rewrite lookup_app_r by lia.
    replace (length (Users g) - length (Users g))%nat with 0%nat by lia. simpl.
    rewrite insert_app_r_alt by lia.
    replace (length (Users g) - length (Users g))%nat with 0%nat by lia. done.
Qed.

Lemma AddUserComplete_Trace ab g :
  Trace (AddUserComplete XUserGetLocalId ab g) =
    Trace g ++ [delete_XAsyncBlock (block ab)].
Proof.
  unfold AddUserComplete, XUserAddResult. simpl.
  destruct (SUCCEEDED (result ab)); [|done].
  destruct (FindUser _ g); [done|].
  unfold Array.AddOne. destruct (decide _); [|done].
  simpl. by rewrite Trace_through.
Qed.

Lemma UserDeviceAssociationChanged_sessions change g :
  sessions (UserDeviceAssociationChangedCallback order change g) = sessions g.
Proof.
  unfold UserDeviceAssociationChangedCallback.
  set (g0 := emit _ g).
  set (g1 := match FindUser (oldUser change) g0 with Some _ => _ | None => _ end).
  assert (sessions g1 = sessions g) as H1.
  { subst g1. destruct (FindUser (oldUser change) g0); [|done].
    by rewrite sessions_through. }
  destruct (FindUser (newUser change) g1); [|done].
  by rewrite sessions_through.
Qed.

Lemma invoke_ids_NoDup c g :
  NoDup (ids g) → NoDup (ids (invoke XUserGetLocalId order c g)).
Proof.
  intros Hg. destruct c as [ab|id ev|change]; simpl.
  - unfold ids. rewrite AddUserComplete_Users.
    destruct (SUCCEEDED (result ab)); [|done].
    destruct (decide (_ ∈ ids g)) as [|Hnot]; [done|].
    destruct (decide _); [|done].
    rewrite fmap_app. simpl. apply NoDup_app. split_and!; [done| |].
    + intros x Hx [->|[]%elem_of_nil]%elem_of_cons. by apply Hnot.
    + apply NoDup_singleton.
  - destruct ev; try done.
    rewrite UserChangeEventCallback_SignedOut. simpl.
    destruct (FindUser id g); [|done].
    rewrite sign_out_at_ids. by apply RemoveAt_NoDup.
  - by rewrite (sessions_ids _ g (UserDeviceAssociationChanged_sessions change g)).
Qed.

(** C1. Whatever completions are applied, in whatever order, to a registry
    whose sessions have pairwise different local ids, the resulting
    registry again has pairwise different local ids: after every sign-in
    (successful or failed), every user-change event and every
    device-association event, no local id occurs twice in [Users]. *)
Theorem registry_localIds_stay_unique (cs : list Completion) g :
  NoDup (ids g) → NoDup (ids (apply_all XUserGetLocalId order cs g)).
Proof.
  revert g. induction cs as [|c cs IH]; intros g Hg; simpl; [done|].
  apply IH. by apply invoke_ids_NoDup.
Qed.

(** C2 (amended). A successful sign-in completion whose local id is held by
    no session inserts, while the registry holds fewer than its 8 slots,
    exactly one session at the end of the registry, with the completion's
    handle, that local id and no devices; when a session already holds the
    local id the registry is left as it is. *)
Theorem sign_in_adds_one_session_below_capacity ab g :
  SUCCEEDED (result ab) = true →
  let id := XUserGetLocalId (resultUser ab) in
  (value id ∉ ids g → (length (Users g) < Users_Capacity)%nat →
   Users (AddUserComplete XUserGetLocalId ab g) =
     Users g ++ [ {| UserHandle := resultUser ab; LocalId := id;
                     AssociatedDevices := [] |} ])
  ∧ (value id ∈ ids g → Users (AddUserComplete XUserGetLocalId ab g) = Users g).
Proof.
  intros Hok id. rewrite AddUserComplete_Users, Hok. fold id. split.
  - intros Hnot Hroom.
    destruct (decide (value id ∈ ids g)); [done|].
    destruct (decide (length (Users g) < Users_Capacity)%nat); [done|lia].
  - intros Hin. by destruct (decide (value id ∈ ids g)).
Qed.

(** *** The statements of [UserChangeEventCallback] in order *)

Local Abbreviation after_ id g n :=
  (UserChangeEventCallback_run order id SignedOut n%nat (At_LOG, g)).

Lemma UserChangeEventCallback_run_S id ev n c :
  UserChangeEventCallback_run order id ev (S n) c =
    default (UserChangeEventCallback_run order id ev n c)
      (UserChangeEventCallback_step order id ev
         (UserChangeEventCallback_run order id ev n c)).
Proof. done. Qed.

Lemma UserChangeEventCallback_run_returned id ev n k c g' :
  UserChangeEventCallback_run order id ev n c = (At_return, g') →
  UserChangeEventCallback_run order id ev (n + k) c = (At_return, g').
Proof.
  intros Hn. induction k as [|k IH].
  - by rewrite Nat.add_0_r.
  - rewrite Nat.add_succ_r, UserChangeEventCallback_run_S, IH. done.
Qed.

(** As long as the slots passed do not hold the local id, the loop only
    tests and compares: after [2 * j + 2] statements it stands at the test
    of index [j], and the log line is all that has happened. *)
Lemma SignedOut_scan id g j :
  (j ≤ length (Users g))%nat →
  (∀ k u, (k < j)%nat → Users g !! k = Some u →
          value (LocalId u) ≠ value id) →
  UserChangeEventCallback_run order id SignedOut (2 * j + 2) (At_LOG, g)
    = (At_loop_test j, emit (sign_out_line id) g)
  ∧ ∀ k, (k ≤ 2 * j + 2)%nat →
      (UserChangeEventCallback_run order id SignedOut k (At_LOG, g)).2 = g
      ∨ (UserChangeEventCallback_run order id SignedOut k (At_LOG, g)).2
        = emit (sign_out_line id) g.
Proof.
  induction j as [|j IH]; intros Hj Hnone.
  - split; [done|]. intros k Hk.
    destruct k as [|[|[|k]]]; [by left|by right|by right|lia].
  - destruct IH as [Hat Hbefore]; [lia|intros k u ?; apply Hnone; lia|].
    destruct (lookup_lt_is_Some_2 (Users g) j) as [u Hu]; [lia|].
    assert (value (LocalId u) ≠ value id) as Hne by (apply (Hnone j); [lia|done]).
    assert (UserChangeEventCallback_run order id SignedOut (S (2 * j + 2))
              (At_LOG, g) = (At_compare j, emit (sign_out_line id) g)) as Hcmp.
    { rewrite UserChangeEventCallback_run_S, Hat. simpl.
      unfold Array.Count. destruct (decide (j < length (Users g))%nat); [done|lia]. }
    assert (UserChangeEventCallback_run order id SignedOut (S (S (2 * j + 2)))
              (At_LOG, g) = (At_loop_test (S j), emit (sign_out_line id) g))
      as Htest.
    { rewrite UserChangeEventCallback_run_S, Hcmp. simpl.
      unfold Array.At. rewrite Hu.
      destruct (decide (value (LocalId u) = value id)); done. }
    replace (2 * S j + 2)%nat with (S (S (2 * j + 2))) by lia.
    split; [done|]. intros k Hk.
    destruct (decide (k ≤ 2 * j + 2)%nat) as [Hle|Hgt]; [by apply Hbefore|].
    destruct (decide (k = S (2 * j + 2))) as [->|Hk'].
    + right. by rewrite Hcmp.
    + replace k with (S (S (2 * j + 2))) by lia. right. by rewrite Htest.
Qed.

(** C3. A sign-out notification, followed statement by statement.  If [i]
    is the first slot whose local id is the notified one, with session [u]
    in it, then during the first [2 * i + 4] statements nothing but the log
    line happens and [Users] is untouched; the next statement closes the
    handle of [u], with every session still in the registry; the one after
    clears the device list of slot [i]; only the statement after that
    removes slot [i], and with it the callback has returned in the state
    [UserChangeEventCallback] computes.  The sessions left are those of
    [delete i], and the log line and the close are the only effects.  If no
    slot holds the local id, no statement touches [Users], the log line is
    all that happens, and the callback returns after the loop has passed
    every slot. *)
Theorem sign_out_closes_the_handle_then_removes id g :
  let g0 := emit (sign_out_line id) g in
  let g' := UserChangeEventCallback order id SignedOut g in
  let after n :=
    UserChangeEventCallback_run order id SignedOut n (At_LOG, g) in
  match FindUser id g with
  | Some i =>
      ∃ u, Users g !! i = Some u ∧ value (LocalId u) = value id ∧
           let n := (2 * i + 4)%nat in
           let closed := emit (XUserCloseHandle (UserHandle u)) g0 in
           (∀ k, (k ≤ n)%nat → (after k).2 = g ∨ (after k).2 = g0) ∧
           after n = (At_Unset_XUserCloseHandle i, g0) ∧
           after (n + 1)%nat = (At_Unset_Clear i, closed) ∧
           after (n + 2)%nat = (At_RemoveAt i, User_Unset i g0) ∧
           (∀ k, after (n + 3 + k)%nat = (At_return, g')) ∧
           effects_since g0 closed = [XUserCloseHandle (UserHandle u)] ∧
           Users closed = Users g ∧
           sessions (User_Unset i g0) = sessions g ∧
           g' = set_Users (Array.RemoveAt order i (Users (User_Unset i g0)))
                  (User_Unset i g0) ∧
           sessions g' ≡ₚ delete i (sessions g) ∧
           effects_since g g' = [sign_out_line id;
                                 XUserCloseHandle (UserHandle u)]
  | None =>
      (value id ∉ ids g) ∧ Users g' = Users g ∧
      effects_since g g' = [sign_out_line id] ∧
      (∀ k, (after k).2 = g ∨ (after k).2 = g0) ∧
      (∀ k, after (2 * length (Users g) + 3 + k)%nat = (At_return, g'))
  end.
Proof.
  intros g0 g' after. subst g'. rewrite UserChangeEventCallback_SignedOut.
  fold g0. subst after. cbv beta zeta.
  destruct (FindUser id g) as [i|] eqn:Hfind.
  - apply FindUser_Some in Hfind as [(u & Hu & Hid) Hleast].
    assert (i < length (Users g))%nat as Hi by (by eapply lookup_lt_Some).
    destruct (SignedOut_scan id g i) as [Hat Hbefore]; [lia|done|].
    fold g0 in Hat, Hbefore.
    assert (after_ id g (S (2 * i + 2)) = (At_compare i, g0)) as Hcmp.
    { rewrite UserChangeEventCallback_run_S, Hat. simpl. unfold Array.Count.
      destruct (decide (i < length (Users g))%nat); [done|lia]. }
    assert (after_ id g (2 * i + 4) = (At_Unset_XUserCloseHandle i, g0))
      as Hclose.
    { replace (2 * i + 4)%nat with (S (S (2 * i + 2))) by lia.
      rewrite UserChangeEventCallback_run_S, Hcmp. simpl.
      unfold Array.At. rewrite Hu.
      destruct (decide (value (LocalId u) = value id)); done. }
    assert (after_ id g (2 * i + 4 + 1)
            = (At_Unset_Clear i, emit (XUserCloseHandle (UserHandle u)) g0))
      as Hclear.
    { rewrite Nat.add_1_r, UserChangeEventCallback_run_S, Hclose. simpl.
      unfold Array.At. by rewrite Hu. }
    assert (after_ id g (2 * i + 4 + 2) = (At_RemoveAt i, User_Unset i g0))
      as Hremove.
    { replace (2 * i + 4 + 2)%nat with (S (2 * i + 4 + 1)) by lia.
      rewrite UserChangeEventCallback_run_S, Hclear. simpl.
      unfold User_Unset. simpl. by rewrite Hu. }
    assert (after_ id g (2 * i + 4 + 3) = (At_return, sign_out_at order i g0))
      as Hreturn.
    { replace (2 * i + 4 + 3)%nat with (S (2 * i + 4 + 2)) by lia.
      by rewrite UserChangeEventCallback_run_S, Hremove. }
    exists u. split_and!; try done.
    + intros k Hk.
      destruct (decide (k ≤ 2 * i + 2)%nat) as [Hle|Hgt]; [by apply Hbefore|].
      destruct (decide (k = S (2 * i + 2))) as [->|Hk'].
      * right. by rewrite Hcmp.
      * replace k with (2 * i + 4)%nat by lia. right. by rewrite Hclose.
    + intros k. by apply UserChangeEventCallback_run_returned.
    + unfold effects_since. simpl. by rewrite drop_app_length.
    + by rewrite User_Unset_sessions.
    + rewrite sign_out_at_sessions. apply RemoveAt_Permutation.
      unfold sessions. rewrite length_fmap. by eapply lookup_lt_Some.
    + unfold effects_since, sign_out_at. simpl.
      rewrite (User_Unset_Trace i g0 u Hu). subst g0. simpl.
      rewrite <- (assoc_L (++)). by rewrite drop_app_length.
  - apply FindUser_None in Hfind.
    assert (∀ k u, (k < length (Users g))%nat → Users g !! k = Some u →
                   value (LocalId u) ≠ value id) as Hnone.
    { intros k u _ Hu Heq. apply Hfind. rewrite <- Heq. unfold ids.
      apply list_elem_of_fmap. exists u. split; [done|].
      by eapply list_elem_of_lookup_2. }
    destruct (SignedOut_scan id g (length (Users g))) as [Hat Hbefore];
      [lia|done|].
    fold g0 in Hat, Hbefore.
    assert (after_ id g (2 * length (Users g) + 3) = (At_return, g0))
      as Hreturn.
    { replace (2 * length (Users g) + 3)%nat
        with (S (2 * length (Users g) + 2)) by lia.
      rewrite UserChangeEventCallback_run_S, Hat. simpl. unfold Array.Count.
      destruct (decide (length (Users g) < length (Users g))%nat); [lia|done]. }
    split_and!; [done..| | |].
    + unfold effects_since. subst g0. simpl. by rewrite drop_app_length.
    + intros k.
      destruct (decide (k ≤ 2 * length (Users g) + 2)%nat) as [Hle|Hgt];
        [by apply Hbefore|].
      right. replace k with (2 * length (Users g) + 3
                             + (k - (2 * length (Users g) + 3)))%nat by lia.
      by rewrite (UserChangeEventCallback_run_returned id SignedOut _ _ _ g0).
    + intros k. by apply UserChangeEventCallback_run_returned.
Qed.

Lemma through_set_devices_lookup p (ds : list APP_LOCAL_DEVICE_ID → list APP_LOCAL_DEVICE_ID) g i u :
  Users g !! i = Some u →
  Users (through p (λ u, set_AssociatedDevices (ds (AssociatedDevices u)) u) g) !! i =
    Some (set_AssociatedDevices
            (if decide (p = i) then ds (AssociatedDevices u)
             else AssociatedDevices u) u).
Proof.
  intros Hi. destruct (decide (p = i)) as [->|Hne].
  - by rewrite (through_lookup _ _ _ u Hi).
  - rewrite through_lookup_ne by done. rewrite Hi. by destruct u.
Qed.

Lemma UserDeviceAssociationChanged_unfold change g :
  let g0 := emit (LOG_Info (UserDeviceAssociationEvent (deviceId change)
                              (value (oldUser change))
                              (value (newUser change)))) g in
  let detach u :=
    set_AssociatedDevices
      (Array.Remove APP_LOCAL_DEVICE_ID_eq order (deviceId change)
         (AssociatedDevices u)) u in
  let attach u :=
    set_AssociatedDevices
      (Array.Add AssociatedDevices_Capacity (deviceId change)
         (AssociatedDevices u)) u in
  let g1 :=
    match FindUser (oldUser change) g with
    | Some p => through p detach g0
    | None => g0
    end in
  UserDeviceAssociationChangedCallback order change g =
    match FindUser (newUser change) g with
    | Some p => through p attach g1
    | None => g1
    end.
Proof.
  intros g0 detach attach g1.
  unfold UserDeviceAssociationChangedCallback. fold g0.
  assert (FindUser (oldUser change) g0 = FindUser (oldUser change) g) as -> by done.
  fold detach. fold g1.
  assert (sessions g1 = sessions g) as Hs1.
  { subst g1. destruct (FindUser (oldUser change) g); [|done].
    by rewrite sessions_through. }
  by rewrite (FindUser_ids (newUser change) g1 g (sessions_ids _ _ Hs1)).
Qed.

Lemma UserDeviceAssociationChanged_lookup change g i u :
  Users g !! i = Some u →
  Users (UserDeviceAssociationChangedCallback order change g) !! i =
    Some (set_AssociatedDevices
            (devices_after order
               (bool_decide (FindUser (oldUser change) g = Some i))
               (bool_decide (FindUser (newUser change) g = Some i))
               (deviceId change) (AssociatedDevices u)) u).
Proof.
  intros Hi. rewrite UserDeviceAssociationChanged_unfold. cbv zeta.
  set (g0 := emit _ g).
  set (g1 := match FindUser (oldUser change) g with Some _ => _ | None => _ end).
  assert (Users g1 !! i =
            Some (set_AssociatedDevices
                    (devices_after order
                       (bool_decide (FindUser (oldUser change) g = Some i))
                       false (deviceId change) (AssociatedDevices u)) u))
    as Hg1.
  { subst g1. unfold devices_after.
    destruct (FindUser (oldUser change) g) as [p|].
    - rewrite (through_set_devices_lookup p _ g0 i u Hi).
      destruct (decide (p = i)) as [->|Hne].
      + by rewrite bool_decide_eq_true_2.
      + rewrite bool_decide_eq_false_2; [done|congruence].
    - rewrite bool_decide_eq_false_2 by done. simpl. rewrite Hi. by destruct u. }
  destruct (FindUser (newUser change) g) as [p|].
  - rewrite (through_set_devices_lookup p _ g1 i _ Hg1). simpl.
    unfold devices_after.
    destruct (decide (p = i)) as [->|Hne].
    + by rewrite (bool_decide_eq_true_2 (Some i = Some i)).
    + rewrite (bool_decide_eq_false_2 (Some p = Some i)); [done|congruence].
  - rewrite Hg1. unfold devices_after.
    by rewrite (bool_decide_eq_false_2 (None = Some i)).
Qed.

Lemma UserDeviceAssociationChanged_Trace change g :
  Trace (UserDeviceAssociationChangedCallback order change g) =
    Trace g ++ [LOG_Info (UserDeviceAssociationEvent (deviceId change)
                            (value (oldUser change)) (value (newUser change)))].
Proof.
  rewrite UserDeviceAssociationChanged_unfold. cbv zeta.
  destruct (FindUser (newUser change) g), (FindUser (oldUser change) g);
    by rewrite ?Trace_through.
Qed.

(** C4. A device-association change keeps the sessions of the registry as
    they are, slot by slot: none is added, none removed, no handle or local
    id changes.  In each slot the device is removed from the list exactly
    if the slot is the one [FindUser] returns for the old user, and then
    added exactly if the slot is the one [FindUser] returns for the new
    user; when [FindUser] returns null for both, [Users] is unchanged.  The
    log line is the only effect. *)
Theorem device_association_touches_found_sessions_only change g :
  let g' := UserDeviceAssociationChangedCallback order change g in
  sessions g' = sessions g
  ∧ (∀ i u, Users g !! i = Some u →
       Users g' !! i =
         Some (set_AssociatedDevices
                 (devices_after order
                    (bool_decide (FindUser (oldUser change) g = Some i))
                    (bool_decide (FindUser (newUser change) g = Some i))
                    (deviceId change) (AssociatedDevices u)) u))
  ∧ (FindUser (oldUser change) g = None → FindUser (newUser change) g = None →
     Users g' = Users g)
  ∧ effects_since g g' =
      [LOG_Info (UserDeviceAssociationEvent (deviceId change)
                   (value (oldUser change)) (value (newUser change)))].
Proof.
  intros g'. subst g'. split_and!.
  - apply UserDeviceAssociationChanged_sessions.
  - apply UserDeviceAssociationChanged_lookup.
  - intros Hold Hnew. rewrite UserDeviceAssociationChanged_unfold. cbv zeta.
    by rewrite Hnew, Hold.
  - unfold effects_since. rewrite UserDeviceAssociationChanged_Trace.
    by rewrite drop_app_length.
Qed.

(** *** Device identifiers *)

Lemma Byte_to_N_inj (a b : BYTE) : Byte.to_N a = Byte.to_N b → a = b.
Proof.
  intros H. pose proof (Byte.of_to_N a) as Ha. rewrite H, Byte.of_to_N in Ha.
  by injection Ha.
Qed.

Lemma MemoryCompare_zero (l r : list BYTE) n :
  length l = n → length r = n → MemoryCompare l r n = 0 ↔ l = r.
Proof.
  revert l r. induction n as [|n IH]; intros [|a l] [|b r]; simpl; try done.
  intros [= Hl] [= Hr]. destruct (decide (a = b)) as [->|Hne].
  - rewrite (IH l r Hl Hr). split; [by intros -> | by intros [= ->]].
  - split; [|by intros [= -> _]].
    intros H. destruct Hne. apply Byte_to_N_inj. lia.
Qed.

(** [operator==] holds of two identifiers exactly when all 32 bytes agree. *)
Lemma APP_LOCAL_DEVICE_ID_eq_exact (l r : APP_LOCAL_DEVICE_ID) :
  APP_LOCAL_DEVICE_ID_eq l r = true ↔ l = r.
Proof.
  unfold APP_LOCAL_DEVICE_ID_eq. rewrite bool_decide_eq_true.
  rewrite MemoryCompare_zero by apply length_vec_to_list.
  destruct l as [v], r as [w]. simpl. split.
  - by intros ->%vec_to_list_inj2.
  - by intros [= ->].
Qed.

Lemma Remove_NoDup (item : APP_LOCAL_DEVICE_ID) ds :
  NoDup ds → NoDup (Array.Remove APP_LOCAL_DEVICE_ID_eq order item ds).
Proof.
  intros H. unfold Array.Remove.
  destruct (Array.Find _ item ds); [by apply RemoveAt_NoDup | done].
Qed.

(** In a list without repetitions, removing the first occurrence leaves
    none. *)
Lemma Remove_gone (item : APP_LOCAL_DEVICE_ID) ds :
  NoDup ds → item ∉ Array.Remove APP_LOCAL_DEVICE_ID_eq order item ds.
Proof.
  intros Hnd. unfold Array.Remove, Array.Find.
  destruct (Array.Find_from _ item ds 0) as [j|] eqn:Hfind.
  - apply Find_from_Some in Hfind as (x & _ & Hj & ->%APP_LOCAL_DEVICE_ID_eq_exact).
    replace (j - 0)%nat with j in Hj by lia.
    rewrite RemoveAt_Permutation by (by eapply lookup_lt_Some).
    rewrite delete_take_drop.
    rewrite <- (take_drop_middle ds j item Hj) in Hnd.
    apply NoDup_app in Hnd as (_ & Hleft & [Hright _]%NoDup_cons).
    intros [Hin|Hin]%elem_of_app; [|done].
    apply (Hleft item Hin). apply elem_of_cons. by left.
  - intros Hin. pose proof (Find_from_None _ _ _ _ Hfind item Hin) as Hne.
    assert (APP_LOCAL_DEVICE_ID_eq item item = true) as Heq
      by by apply APP_LOCAL_DEVICE_ID_eq_exact.
    congruence.
Qed.

Lemma Add_NoDup (item : APP_LOCAL_DEVICE_ID) ds :
  NoDup ds → item ∉ ds → NoDup (Array.Add AssociatedDevices_Capacity item ds).
Proof.
  intros Hnd Hnot. unfold Array.Add. destruct (decide _); [|done].
  apply NoDup_app. split_and!; [done| |apply NoDup_singleton].
  by intros x Hx [->|[]%elem_of_nil]%elem_of_cons.
Qed.

(** C9 (amended). [AssociatedDevices] is an array: [Add] appends without
    looking for the device, and equality of identifiers is byte-exact over
    all 32 bytes.  A device-association change keeps every device list free
    of repetitions provided the device is not already in the list of the
    session found for the new user, unless that session is also the one
    found for the old user (where it is removed first). *)
Theorem device_lists_stay_sets_for_consistent_changes change g :
  device_lists_are_sets g →
  (∀ i u, FindUser (newUser change) g = Some i → Users g !! i = Some u →
          deviceId change ∈ AssociatedDevices u →
          FindUser (oldUser change) g = Some i) →
  device_lists_are_sets (UserDeviceAssociationChangedCallback order change g)
  ∧ ∀ l r, APP_LOCAL_DEVICE_ID_eq l r = true ↔ l = r.
Proof.
  intros Hsets Hfresh. split; [|apply APP_LOCAL_DEVICE_ID_eq_exact].
  intros u' [i Hi']%list_elem_of_lookup.
  assert (is_Some (Users g !! i)) as [u Hi].
  { apply lookup_lt_is_Some. apply lookup_lt_Some in Hi'.
    pose proof (UserDeviceAssociationChanged_sessions change g) as Hs.
    apply (f_equal length) in Hs. unfold sessions in Hs.
    rewrite !length_fmap in Hs. lia. }
  rewrite (UserDeviceAssociationChanged_lookup change g i u Hi) in Hi'.
  injection Hi' as <-. simpl.
  assert (NoDup (AssociatedDevices u)) as Hu.
  { apply Hsets. apply list_elem_of_lookup. by exists i. }
  unfold devices_after.
  destruct (bool_decide (FindUser (newUser change) g = Some i)) eqn:Hnew;
    destruct (bool_decide (FindUser (oldUser change) g = Some i)) eqn:Hold.
  - apply Add_NoDup; [by apply Remove_NoDup | by apply Remove_gone].
  - apply Add_NoDup; [done|]. intros Hin.
    apply bool_decide_eq_true in Hnew. apply bool_decide_eq_false in Hold.
    apply Hold. by apply (Hfresh i u).
  - by apply Remove_NoDup.
  - done.
Qed.

(** *** Opening a URL *)

Section OpenUrl.
Variable StringAsANSI : list Char → list BYTE.

(** C10. [OpenUrl] reads [Users[0]] without a check of its own.  The read
    is inside the array exactly when [CanOpenUrl] answers true, that is when
    the registry holds a session: then the URI is launched with the handle
    of slot 0; on an empty registry the read falls outside the array. *)
Theorem OpenUrl_in_bounds_iff_CanOpenUrl url g :
  (is_Some (OpenUrl StringAsANSI url g) ↔ CanOpenUrl url g = true)
  ∧ (CanOpenUrl url g = true ↔ Users g ≠ [])
  ∧ (∀ u rest, Users g = u :: rest →
       OpenUrl StringAsANSI url g =
         Some (emit (XLaunchUri (UserHandle u) (StringAsANSI url)) g))
  ∧ (Users g = [] → OpenUrl StringAsANSI url g = None).
Proof.
  unfold OpenUrl, CanOpenUrl, Array.HasItems, Array.At, Array.Count.
  rewrite bool_decide_eq_true.
  destruct (Users g) as [|u rest]; simpl; split_and!; try done.
  - split; [intros [? [=]] | lia].
  - split; [lia | done].
  - split; [lia | by eexists].
  - split; [done | lia].
  - by intros ? ? [= <- <-].
Qed.
End OpenUrl.

(** *** The dispatch loop *)

Lemma dispatch_loop_drains port g :
  dispatch_loop XUserGetLocalId order port g =
    ([], apply_all XUserGetLocalId order port g).
Proof.
  revert g. induction port as [|c rest IH]; intros g.
  - by simp dispatch_loop.
  - simp dispatch_loop. simpl. apply IH.
Qed.

Lemma message_loop_drains queue g :
  message_loop queue g = ([], foldl deliver g queue).
Proof.
  revert g. induction queue as [|msg rest IH]; intros g.
  - by simp message_loop.
  - simp message_loop. simpl. apply IH.
Qed.

Lemma deliver_all_Trace msgs g :
  Trace (foldl deliver g msgs) = Trace g ++ message_effects msgs.
Proof.
  revert g. induction msgs as [|msg rest IH]; intros g; simpl.
  - unfold message_effects. simpl. by rewrite (right_id_L [] (++)).
  - rewrite IH. unfold message_effects. simpl.
    by rewrite <- !(assoc_L (++)).
Qed.

Lemma deliver_all_Users msgs g : Users (foldl deliver g msgs) = Users g.
Proof.
  revert g. induction msgs as [|msg rest IH]; intros g; simpl; [done|].
  by rewrite IH.
Qed.

(** A callback only adds to the effects. *)
Lemma invoke_Trace c g :
  Trace (invoke XUserGetLocalId order c g) =
    Trace g ++ effects_since g (invoke XUserGetLocalId order c g).
Proof.
  unfold effects_since. destruct c as [ab|id ev|change]; unfold invoke.
  - rewrite AddUserComplete_Trace. by rewrite drop_app_length.
  - destruct ev;
      try (unfold UserChangeEventCallback; simpl; by rewrite drop_app_length).
    rewrite UserChangeEventCallback_SignedOut. cbv zeta.
    destruct (FindUser id g) as [i|] eqn:Hfind.
    + apply FindUser_Some in Hfind as [(u & Hu & _) _].
      unfold sign_out_at. simpl.
      rewrite (User_Unset_Trace i (emit _ g) u Hu).
      simpl. rewrite <- (assoc_L (++)). by rewrite drop_app_length.
    + simpl. by rewrite drop_app_length.
  - rewrite UserDeviceAssociationChanged_Trace. by rewrite drop_app_length.
Qed.

Lemma apply_all_Trace cs g :
  Trace (apply_all XUserGetLocalId order cs g) =
    Trace g ++ effects_since g (apply_all XUserGetLocalId order cs g).
Proof.
  revert g. induction cs as [|c cs IH]; intros g; simpl.
  - unfold effects_since. by rewrite drop_all, (right_id_L [] (++)).
  - unfold effects_since. rewrite IH. rewrite invoke_Trace at 1 2.
    rewrite <- (assoc_L (++)). by rewrite drop_app_length.
Qed.

(** C6. [Tick] polls the input, then runs every queued completion, oldest
    first, and only then takes the window messages, oldest first; it leaves
    both queues empty.  A dispatch with timeout 0 answers false exactly on
    an empty port, which is the only exit of the first loop.  In the trace
    all effects of the completions stand before the effects of the
    messages. *)
Theorem Tick_drains_completions_then_messages (p : Platform) :
  let polled := emit GDKInput_Update (globals p) in
  let completed := apply_all XUserGetLocalId order (CompletionPort p) polled in
  Tick XUserGetLocalId order p =
    {| globals := foldl deliver completed (MessageQueue p);
       CompletionPort := [];
       MessageQueue := [] |}
  ∧ (∀ port g,
       (XTaskQueueDispatch XUserGetLocalId order port g).1.1 = false ↔ port = [])
  ∧ Trace (globals (Tick XUserGetLocalId order p)) =
      Trace (globals p) ++ [GDKInput_Update]
        ++ effects_since polled completed
        ++ message_effects (MessageQueue p)
  ∧ Users (globals (Tick XUserGetLocalId order p)) = Users completed.
Proof.
  intros polled completed.
  assert (Tick XUserGetLocalId order p =
            {| globals := foldl deliver completed (MessageQueue p);
               CompletionPort := [];
               MessageQueue := [] |}) as HTick.
  { unfold Tick. fold polled. rewrite dispatch_loop_drains. fold completed.
    by rewrite message_loop_drains. }
  split_and!; [done| | |].
  - intros [|c rest] g; simpl; split; done.
  - rewrite HTick. simpl. rewrite deliver_all_Trace.
    subst completed. rewrite apply_all_Trace. subst polled. simpl.
    by rewrite <- !(assoc_L (++)).
  - rewrite HTick. simpl. apply deliver_all_Users.
Qed.

(** *** Failed sign-in completions *)

(** What a callback does to [Users] depends on [Users] alone. *)
Lemma through_Users p (f : User → User) g1 g2 :
  Users g1 = Users g2 → Users (through p f g1) = Users (through p f g2).
Proof.
  intros H. unfold through. rewrite H.
  destruct (Users g2 !! p); simpl; by rewrite ?H.
Qed.

Lemma sign_out_at_Users i g1 g2 :
  Users g1 = Users g2 →
  Users (sign_out_at order i g1) = Users (sign_out_at order i g2).
Proof.
  intros H. unfold sign_out_at. simpl. f_equal.
  unfold User_Unset. rewrite H.
  destruct (Users g2 !! i); [|done]. by apply through_Users.
Qed.

Lemma invoke_Users c g1 g2 :
  Users g1 = Users g2 →
  Users (invoke XUserGetLocalId order c g1) =
    Users (invoke XUserGetLocalId order c g2).
Proof.
  intros H.
  assert (∀ id, FindUser id g1 = FindUser id g2) as Hfind.
  { intros id. apply FindUser_ids. unfold ids. by rewrite H. }
  destruct c as [ab|id ev|change]; unfold invoke.
  - rewrite !AddUserComplete_Users. unfold ids. by rewrite H.
  - destruct ev; try done.
    rewrite !UserChangeEventCallback_SignedOut. cbv zeta. rewrite Hfind.
    destruct (FindUser id g2); [|done]. by apply sign_out_at_Users.
  - rewrite !UserDeviceAssociationChanged_unfold. cbv zeta. rewrite !Hfind.
    destruct (FindUser (newUser change) g2), (FindUser (oldUser change) g2);
      repeat apply through_Users; done.
Qed.

Lemma apply_all_Users cs g1 g2 :
  Users g1 = Users g2 →
  Users (apply_all XUserGetLocalId order cs g1) =
    Users (apply_all XUserGetLocalId order cs g2).
Proof.
  revert g1 g2. induction cs as [|c cs IH]; intros g1 g2 H; simpl; [done|].
  apply IH. by apply invoke_Users.
Qed.

Lemma apply_all_app cs1 cs2 g :
  apply_all XUserGetLocalId order (cs1 ++ cs2) g =
    apply_all XUserGetLocalId order cs2 (apply_all XUserGetLocalId order cs1 g).
Proof. apply foldl_app. Qed.

(** C7 (amended). A sign-in completion whose result extraction fails does
    nothing but free its async block: nothing is written to the log and
    [Users] is unchanged.  Wherever such a completion stands in the port, the
    dispatch loop still runs to the empty port, and the registry it ends
    with is the one it would end with had the completion not been queued. *)
Theorem failed_sign_in_is_dropped_silently ab g :
  SUCCEEDED (result ab) = false →
  AddUserComplete XUserGetLocalId ab g = emit (delete_XAsyncBlock (block ab)) g
  ∧ (∀ e, e ∈ effects_since g (AddUserComplete XUserGetLocalId ab g) →
          is_log e = false)
  ∧ ∀ before after,
      let queued :=
        dispatch_loop XUserGetLocalId order
          (before ++ AddUserCompletion ab :: after) g in
      let not_queued :=
        dispatch_loop XUserGetLocalId order (before ++ after) g in
      queued.1 = [] ∧ Users queued.2 = Users not_queued.2.
Proof.
  intros Hfail.
  assert (∀ g, AddUserComplete XUserGetLocalId ab g =
               emit (delete_XAsyncBlock (block ab)) g) as Hdrop.
  { intros g0. unfold AddUserComplete, XUserAddResult. by rewrite Hfail. }
  split_and!.
  - apply Hdrop.
  - intros e. rewrite Hdrop. unfold effects_since. simpl.
    rewrite drop_app_length. by intros [->|[]%elem_of_nil]%elem_of_cons.
  - intros before after. cbv zeta. rewrite !dispatch_loop_drains. simpl.
    split; [done|]. rewrite !apply_all_app. simpl.
    apply apply_all_Users. by rewrite Hdrop.
Qed.

End RegistryFacts.

(** ** The suspend/resume handshake *)

Section LifecycleFacts.
Import Lifecycle.
Implicit Types (s : State) (a : Action).

Lemma count_cons a b h :
  count a (b :: h) = if decide (b = a) then S (count a h) else count a h.
Proof. unfold count. rewrite filter_cons. by destruct (decide (b = a)). Qed.

Lemma filter_WM_USER_snoc (q : list MSG) msg :
  length (filter (λ m, m = WM_USER) (q ++ [msg])) =
    (length (filter (λ m, m = WM_USER) q)
     + if decide (msg = WM_USER) then 1 else 0)%nat.
Proof.
  rewrite filter_app, length_app. f_equal.
  rewrite filter_cons. by destruct (decide (msg = WM_USER)).
Qed.

Lemma filter_WM_USER_cons (q : list MSG) msg :
  length (filter (λ m, m = WM_USER) (msg :: q)) =
    ((if decide (msg = WM_USER) then 1 else 0)
     + length (filter (λ m, m = WM_USER) q))%nat.
Proof. rewrite filter_cons. by destruct (decide (msg = WM_USER)). Qed.

Lemma Invariant_start setup : Invariant (start setup).
Proof. by split. Qed.

(** Brings the fields of a state built by one move into view and decides
    the comparisons of the counted action with the recorded one. *)
Ltac after_move :=
  unfold occurrences, pending in *;
  cbn [history queue notifier main callback_registered IsSuspended
       SuspendComplete_signaled SignalResume_signaled signaled
       set_signaled set_IsSuspended set_queue notifier_at main_at record] in *;
  rewrite ?count_cons, ?filter_WM_USER_snoc, ?filter_WM_USER_cons in *;
  repeat match goal with
    | |- context [decide ?P] => destruct (decide P); try congruence
    | H : context [decide ?P] |- _ => destruct (decide P); try congruence
    end;
  cbn [before_PostMessage in_callback before_OnSuspend at_SetSuspendComplete
       before_OnResume callback_actions callback_action callback_script] in *.

Lemma move_Invariant m s s' : move m s = Some s' → Invariant s → Invariant s'.
Proof.
  intros Hm [Hreg Hpost Hrel Hq Hfire Hack Hsig Hres Hquiet Hscript].
  destruct m as [[]| | |msg]; simpl in Hm.
  - (* the OS enters the callback *)
    unfold notify in Hm.
    destruct (callback_registered s) eqn:Hr; [|done].
    destruct (notifier s) eqn:Hn; try done. injection Hm as <-.
    split; after_move; try lia; try done.
  - (* the OS signals resume *)
    unfold notify in Hm.
    destruct (callback_registered s) eqn:Hr; [|done]. injection Hm as <-.
    split; after_move; try lia; try done.
  - (* a statement of the callback *)
    unfold notifier_step, WaitForSingleObject in Hm.
    destruct (notifier s) eqn:Hn; [done| | | |].
    + injection Hm as <-. split; after_move; try lia; try done.
      by rewrite Hscript.
    + injection Hm as <-. split; after_move; try lia; try done.
      by rewrite Hscript.
    + injection Hm as <-. split; after_move; try lia; try done.
      by rewrite Hscript.
    + simpl in Hm. destruct (SuspendComplete_signaled s) eqn:Hs; [|done].
      simpl in Hm. injection Hm as <-.
      split; after_move; try lia; try done.
      rewrite Hscript.
      destruct (count (Notified true) (history s)); [lia | done].
  - (* a statement of the main thread *)
    unfold main_step, WaitForSingleObject in Hm.
    destruct (main s) eqn:Hmain;
      try solve [injection Hm as <-; split; after_move; try lia; try done;
                 intros H0; first [exfalso; lia | by destruct (Hquiet H0)]].
    + destruct (queue s) as [|msg rest] eqn:Hqueue; [done|].
      unfold pending in Hq. rewrite Hqueue in Hq.
      destruct (decide (msg = WM_USER)) as [->|Hne]; injection Hm as <-.
      * split; after_move; try lia; try done.
      * split; after_move; try lia; try done.
        intros H0. by destruct (Hquiet H0).
    + simpl in Hm. destruct (SignalResume_signaled s) eqn:Hs; [|done].
      simpl in Hm. injection Hm as <-.
      split; after_move; try lia; try done.
  - (* somebody posts another message *)
    unfold post in Hm. destruct (decide (msg = WM_USER)); [done|].
    injection Hm as <-.
    split; after_move; try lia; try done.
Qed.

Lemma run_Invariant schedule s s' :
  run schedule s = Some s' → Invariant s → Invariant s'.
Proof.
  revert s. induction schedule as [|m rest IH]; intros s; simpl.
  - by intros [= <-].
  - destruct (move m s) as [s1|] eqn:Hm; [|done].
    intros Hrun Hs. apply (IH s1 Hrun). by apply (move_Invariant m s).
Qed.

(** Nothing after [OnMainWindowCreated] registers or unregisters the
    callback. *)
Lemma move_callback_registered m s s' :
  move m s = Some s' → callback_registered s' = callback_registered s.
Proof.
  intros Hm. destruct m as [[]| | |msg]; simpl in Hm.
  - unfold notify in Hm. destruct (callback_registered s) eqn:Hr; [|done].
    destruct (notifier s); try done. by injection Hm as <-.
  - unfold notify in Hm. destruct (callback_registered s) eqn:Hr; [|done].
    by injection Hm as <-.
  - unfold notifier_step, WaitForSingleObject in Hm.
    destruct (notifier s); try done; try (by injection Hm as <-).
    simpl in Hm. destruct (SuspendComplete_signaled s); [|done].
    simpl in Hm. by injection Hm as <-.
  - unfold main_step, WaitForSingleObject in Hm.
    destruct (main s); try (by injection Hm as <-).
    + destruct (queue s) as [|msg rest]; [done|].
      destruct (decide (msg = WM_USER)); by injection Hm as <-.
    + simpl in Hm. destruct (SignalResume_signaled s); [|done].
      simpl in Hm. by injection Hm as <-.
  - unfold post in Hm. destruct (decide (msg = WM_USER)); [done|].
    by injection Hm as <-.
Qed.

Lemma run_callback_registered schedule s s' :
  run schedule s = Some s' → callback_registered s' = callback_registered s.
Proof.
  revert s. induction schedule as [|m rest IH]; intros s; simpl.
  - by intros [= <-].
  - destruct (move m s) as [s1|] eqn:Hm; [|done].
    intros Hrun. rewrite (IH s1 Hrun). by apply (move_callback_registered m).
Qed.



(** C8. If either [CreateEventEx] returns null, [OnMainWindowCreated]
    returns to its caller without calling
    [RegisterAppStateChangeNotification].  From then on, whatever the OS and
    the threads do, [OnSuspend] and [OnResume] never fire, the callback body
    never runs, the application never counts as suspended, and the main
    thread stays in its message loop, where it can take every message that
    is queued. *)
Theorem failed_event_creation_disables_the_handshake os :
  CreateEventEx_1 os = 0 ∨ CreateEventEx_2 os = 0 →
  ∃ setup,
    OnMainWindowCreated os = Returns setup
    ∧ (RegisterAppStateChangeNotification ∉ calls setup)
    ∧ registered setup = false
    ∧ ∀ schedule s, run schedule (start setup) = Some s →
        occurrences OnSuspend s = 0%nat
        ∧ occurrences OnResume s = 0%nat
        ∧ notifier s = N_Idle
        ∧ main s = M_Loop
        ∧ GetHasFocus s = true
        ∧ (queue s ≠ [] → is_Some (move Main_runs s)).
Proof.
  intros Hnull. unfold OnMainWindowCreated.
  assert (bool_decide (CreateEventEx_1 os = 0)
          || bool_decide (CreateEventEx_2 os = 0) = true) as ->.
  { apply orb_true_iff. rewrite !bool_decide_eq_true. done. }
  eexists. split_and!; [reflexivity| |reflexivity|].
  - simpl. intros Hin. repeat apply elem_of_cons in Hin as [?|Hin]; try done.
    by apply elem_of_nil in Hin.
  - intros schedule s Hrun.
    match type of Hrun with run _ (start ?setup) = _ =>
      destruct (run_Invariant schedule _ s Hrun (Invariant_start setup))
        as [Hreg Hpost Hrel Hq Hfire Hack Hsig Hres Hquiet Hscript]
    end.
    assert (callback_registered s = false) as Hr
      by by rewrite (run_callback_registered schedule _ s Hrun).
    specialize (Hreg Hr).
    assert (occurrences (Dispatched WM_USER) s = 0%nat) as Hd by lia.
    destruct (Hquiet Hd) as [Hmain Hsusp].
    split_and!; try lia; try done.
    + destruct (notifier s); simpl in *; [done|lia..].
    + unfold GetHasFocus. by rewrite Hsusp.
    + intros Hne. simpl. unfold main_step. rewrite Hmain.
      destruct (queue s) as [|msg rest]; [done|].
      destruct (decide (msg = WM_USER)); by eexists.
Qed.

End LifecycleFacts.

(** ** Worked examples *)

Section Examples.
Import Registry Lifecycle Sample.

(** The scenario of the spec: a sign-in of user 7 is queued, [Tick] runs,
    and the registry holds that one session; a sign-out of user 7 is
    queued, [Tick] runs, and the registry is empty. *)
Example Tick_sign_in_then_sign_out :
  let p1 := Tick XUserGetLocalId Array.SwapWithLast
              {| globals := empty;
                 CompletionPort := [AddUserCompletion (sign_in 7)];
                 MessageQueue := [] |} in
  let p2 := Tick XUserGetLocalId Array.SwapWithLast
              {| globals := globals p1;
                 CompletionPort :=
                   [UserChangeCompletion {| value := 7 |} SignedOut];
                 MessageQueue := [] |} in
  Users (globals p1) = [user 7 []]
  ∧ Users (globals p2) = []
  ∧ Trace (globals p2) =
      [GDKInput_Update; delete_XAsyncBlock 7; GDKInput_Update;
       LOG_Info (UserEvent 7 2); XUserCloseHandle 1007].
Proof. by vm_compute. Qed.

(** The scenario of the spec: the gamepad is attached to user 7 while the
    registry is empty. *)
Example attach_to_unknown_session :
  Users (UserDeviceAssociationChangedCallback Array.KeepOrder gamepad_to_7 empty)
  = [].
Proof. reflexivity. Qed.

(** The two removal orders differ in where the last session ends up. *)
Example sign_out_of_first_user :
  ids (UserChangeEventCallback Array.KeepOrder {| value := 1 |} SignedOut full)
    = [2; 3; 4; 5; 6; 7; 8]
  ∧ ids (UserChangeEventCallback Array.SwapWithLast {| value := 1 |} SignedOut full)
    = [8; 2; 3; 4; 5; 6; 7].
Proof. by vm_compute. Qed.

(** The sign-out of user 2 from the full registry, statement by
    statement: the program point reached, the number of sessions held and
    the effects so far. *)
Example sign_out_statement_by_statement :
  (λ n, let c := UserChangeEventCallback_run Array.KeepOrder {| value := 2 |}
                   SignedOut n (At_LOG, full) in
        (c.1, length (Users c.2), Trace c.2)) <$> seq 0 11
  = [(At_LOG, 8%nat, []);
     (At_switch, 8%nat, [sign_out_line {| value := 2 |}]);
     (At_loop_test 0, 8%nat, [sign_out_line {| value := 2 |}]);
     (At_compare 0, 8%nat, [sign_out_line {| value := 2 |}]);
     (At_loop_test 1, 8%nat, [sign_out_line {| value := 2 |}]);
     (At_compare 1, 8%nat, [sign_out_line {| value := 2 |}]);
     (At_Unset_XUserCloseHandle 1, 8%nat, [sign_out_line {| value := 2 |}]);
     (At_Unset_Clear 1, 8%nat,
      [sign_out_line {| value := 2 |}; XUserCloseHandle 1002]);
     (At_RemoveAt 1, 8%nat,
      [sign_out_line {| value := 2 |}; XUserCloseHandle 1002]);
     (At_return, 7%nat,
      [sign_out_line {| value := 2 |}; XUserCloseHandle 1002]);
     (At_return, 7%nat,
      [sign_out_line {| value := 2 |}; XUserCloseHandle 1002])].
Proof. by vm_compute. Qed.

Example PreInit_is_fatal_without_runtime :
  PreInit (-2147467259) 1 = Exits (-1) ∧ PreInit 0 0 = Exits (-1)
  ∧ PreInit 0 1 = Returns tt.
Proof. by vm_compute. Qed.

Example OnMainWindowCreated_registers :
  OnMainWindowCreated healthy_os = Returns registered_setup.
Proof. reflexivity. Qed.

Lemma registry_localIds_stay_unique_witness :
  NoDup (ids (apply_all XUserGetLocalId Array.SwapWithLast
                [AddUserCompletion (sign_in 7);
                 AddUserCompletion (sign_in 3);
                 AddUserCompletion (sign_in 7);
                 DeviceAssociationCompletion gamepad_to_7;
                 UserChangeCompletion {| value := 7 |} SignedOut;
                 AddUserCompletion failed_sign_in]
                empty)).
Proof.
  apply (registry_localIds_stay_unique XUserGetLocalId Array.SwapWithLast).
  simpl. apply NoDup_nil_2.
Defined.

Lemma sign_in_adds_one_session_below_capacity_witness :
  SUCCEEDED (result (sign_in 7)) = true
  ∧ Users (AddUserComplete XUserGetLocalId (sign_in 7) empty) = [user 7 []].
Proof.
  split; [reflexivity|].
  apply (sign_in_adds_one_session_below_capacity XUserGetLocalId
           (sign_in 7) empty eq_refl).
  - simpl. apply not_elem_of_nil.
  - simpl. unfold Users_Capacity. lia.
Defined.

(** C2, as stated, fails on a full registry.  Eight sign-ins fill the
    registry; the sign-in of user 9 then succeeds, no session holds local
    id 9, and yet no session is inserted. *)
Lemma sign_in_on_full_registry_inserts_nothing :
  Users (apply_all XUserGetLocalId Array.KeepOrder
           (AddUserCompletion ∘ sign_in <$> [1; 2; 3; 4; 5; 6; 7; 8]) empty)
    = Users full
  ∧ SUCCEEDED (result (sign_in 9)) = true
  ∧ (value (XUserGetLocalId (resultUser (sign_in 9))) ∉ ids full)
  ∧ ¬ sign_in_inserts_one XUserGetLocalId (sign_in 9) full.
Proof.
  split_and!; [by vm_compute|reflexivity| |].
  - apply (bool_decide_unpack _). by vm_compute.
  - intros (u & Hu & _). apply (f_equal length) in Hu.
    rewrite length_app in Hu. vm_compute in Hu. lia.
Qed.

Lemma failed_sign_in_is_dropped_silently_witness :
  SUCCEEDED (result failed_sign_in) = false
  ∧ AddUserComplete XUserGetLocalId failed_sign_in one_user
    = emit (delete_XAsyncBlock 99) one_user.
Proof.
  split; [reflexivity|].
  apply (failed_sign_in_is_dropped_silently XUserGetLocalId Array.KeepOrder
           failed_sign_in one_user eq_refl).
Defined.

(** C7, as stated, fails: the failed sign-in leaves no log line. *)
Lemma failed_sign_in_leaves_no_log_line :
  SUCCEEDED (result failed_sign_in) = false
  ∧ ¬ sign_in_failure_is_logged XUserGetLocalId failed_sign_in one_user.
Proof.
  split; [reflexivity|].
  intros (e & He & Hlog). vm_compute in He.
  apply elem_of_cons in He as [->|He]; [done|].
  by apply elem_of_nil in He.
Qed.

Lemma device_lists_stay_sets_for_consistent_changes_witness :
  device_lists_are_sets one_user
  ∧ device_lists_are_sets
      (UserDeviceAssociationChangedCallback Array.KeepOrder gamepad_to_7 one_user).
Proof.
  assert (device_lists_are_sets one_user) as Hsets.
  { intros u Hu. apply elem_of_cons in Hu as [->|Hu].
    - apply NoDup_nil_2.
    - by apply elem_of_nil in Hu. }
  split; [exact Hsets|].
  apply (device_lists_stay_sets_for_consistent_changes Array.KeepOrder
           gamepad_to_7 one_user Hsets).
  intros i u _ Hi Hin. exfalso.
  destruct i as [|i]; simpl in Hi; [|done].
  injection Hi as <-. by apply elem_of_nil in Hin.
Defined.

(** C9, as stated, fails: the same association reported twice puts the
    gamepad twice into the list of user 7. *)
Lemma repeated_association_duplicates_the_device :
  device_lists_are_sets one_user
  ∧ AssociatedDevices <$>
      Users (UserDeviceAssociationChangedCallback Array.KeepOrder gamepad_to_7
               (UserDeviceAssociationChangedCallback Array.KeepOrder
                  gamepad_to_7 one_user))
    = [[gamepad; gamepad]]
  ∧ ¬ device_lists_are_sets
        (UserDeviceAssociationChangedCallback Array.KeepOrder gamepad_to_7
           (UserDeviceAssociationChangedCallback Array.KeepOrder
              gamepad_to_7 one_user)).
Proof.
  split_and!.
  - intros u Hu. apply elem_of_cons in Hu as [->|Hu].
    + apply NoDup_nil_2.
    + by apply elem_of_nil in Hu.
  - reflexivity.
  - intros Hsets.
    specialize (Hsets (user 7 [gamepad; gamepad])).
    assert (NoDup (AssociatedDevices (user 7 [gamepad; gamepad]))) as Hnd.
    { apply Hsets. apply elem_of_cons. by left. }
    simpl in Hnd. apply NoDup_cons in Hnd as [Hnot _].
    apply Hnot. apply elem_of_cons. by left.
Qed.


(** The handshake halfway: the callback waits, [OnSuspend] has fired, the
    event is not yet set, and the callback cannot move. *)
Example callback_waits_until_the_event_is_set :
  run until_OnSuspend (start registered_setup) = Some callback_waiting
  ∧ notifier callback_waiting = N_WaitSuspendComplete
  ∧ main callback_waiting = M_SetSuspendComplete
  ∧ occurrences OnSuspend callback_waiting = 1%nat
  ∧ move Notifier_runs callback_waiting = None
  ∧ is_Some (run [Main_runs; Notifier_runs] callback_waiting).
Proof. split_and!; try reflexivity. by eexists. Qed.

Lemma failed_event_creation_disables_the_handshake_witness :
  CreateEventEx_1 exhausted_os = 0
  ∧ ∃ setup, OnMainWindowCreated exhausted_os = Returns setup
             ∧ registered setup = false.
Proof.
  split; [reflexivity|].
  destruct (failed_event_creation_disables_the_handshake exhausted_os
              (or_introl eq_refl)) as (setup & Hreturns & _ & Hreg & _).
  exists setup. split; [exact Hreturns | exact Hreg].
Defined.

End Examples.

(** ** The message dialog *)

Section MessageBoxFacts.
Import MessageBox.
Variable StringAsANSI : list Char → list BYTE.

Lemma FAILED_not_SUCCEEDED hr : FAILED hr = negb (SUCCEEDED hr).
Proof.
  unfold FAILED, SUCCEEDED.
  destruct (decide (hr < 0)) as [H|H].
  - rewrite bool_decide_eq_true_2 by done.
    rewrite bool_decide_eq_false_2 by lia. done.
  - rewrite bool_decide_eq_false_2 by done.
    rewrite bool_decide_eq_true_2 by lia. done.
Qed.

Lemma Show_all_succeed os text caption buttons l :
  layout buttons = Some l → all_succeed os →
  (Show StringAsANSI os text caption buttons).1
    = decode buttons (button os) DialogResult.None.
Proof.
  intros Hl (H1 & H2 & H3 & H4). unfold Show.
  rewrite Hl, FAILED_not_SUCCEEDED, H1, H2, H3, H4. done.
Qed.

(** X1. When every runtime call of [MessageBox::Show] succeeds and the
    dialog reports a button that carries a text, the result returned is the
    one named by that text: the two switches of the function agree on
    every button of every button set. *)
Theorem Show_returns_the_result_named_on_the_button
    os text caption buttons l label :
  layout buttons = Some l → all_succeed os →
  text_on l (button os) = Some label →
  name (Show StringAsANSI os text caption buttons).1 = label.
Proof.
  intros Hl Hos Hlabel. rewrite (Show_all_succeed _ _ _ _ l Hl Hos).
  destruct buttons; simpl in Hl; try done; injection Hl as <-;
    destruct (button os); simpl in *; congruence.
Qed.

(** X2. [MessageBox::Show] returns [DialogResult::None] exactly when the
    button set is none of the six it knows or one of its four runtime calls
    fails.  For an unknown button set it calls nothing; when the task queue
    cannot be created it calls nothing else; in every other case, whichever
    later call fails, its last two actions are to terminate the queue and
    to delete the async block, and it does neither before. *)
Theorem Show_fails_to_None_and_always_cleans_up os text caption buttons :
  let '(result, calls) := Show StringAsANSI os text caption buttons in
  (result = DialogResult.None ↔ layout buttons = None ∨ ¬ all_succeed os)
  ∧ match layout buttons with
    | None => calls = []
    | Some _ =>
        if SUCCEEDED (XTaskQueueCreate_hr os) then
          ∃ dialog, calls = [XTaskQueueCreate; new_XAsyncBlock] ++ dialog
                            ++ [XTaskQueueTerminate; delete_XAsyncBlock]
                    ∧ (XTaskQueueTerminate ∉ dialog)
                    ∧ (delete_XAsyncBlock ∉ dialog)
        else calls = [XTaskQueueCreate]
    end.
Proof.
  unfold Show, all_succeed. rewrite FAILED_not_SUCCEEDED.
  destruct (layout buttons) as [l|] eqn:Hl.
  2:{ split; [by split; [left|]|done]. }
  destruct (SUCCEEDED (XTaskQueueCreate_hr os)) eqn:H1; simpl.
  2:{ split; [|done]. split; [right; by intros [? _]|done]. }
  destruct (SUCCEEDED (XGameUiShowMessageDialogAsync_hr os)) eqn:H2;
    [destruct (SUCCEEDED (XAsyncGetStatus_hr os)) eqn:H3;
     [destruct (SUCCEEDED (XGameUiShowMessageDialogResult_hr os)) eqn:H4|]|];
    (split;
     [|eexists; split; [reflexivity|];
       split; intros Hin;
       repeat (apply elem_of_cons in Hin as [?|Hin]; [done|]);
       by apply elem_of_nil in Hin]).
  - split.
    + intros Hnone. exfalso.
      destruct buttons; simpl in Hl; try done;
        destruct (button os); simpl in Hnone; done.
    + intros [?|Hnot]; [done|]. by destruct Hnot.
  - split; [intros _; right; by intros (_ & _ & _ & ?)|done].
  - split; [intros _; right; by intros (_ & _ & ? & _)|done].
  - split; [intros _; right; by intros (_ & ? & _ & _)|done].
Qed.

(** X3. In each of the six button sets the first button carries a text, a
    third text comes only with a second, the texts are pairwise different,
    and the default button and the cancel button handed to the dialog are
    buttons that carry a text. *)
Theorem dialog_layouts_are_consistent buttons l :
  layout buttons = Some l →
  is_Some (firstButtonText l)
  ∧ (is_Some (thirdButtonText l) → is_Some (secondButtonText l))
  ∧ NoDup (omap id [firstButtonText l; secondButtonText l; thirdButtonText l])
  ∧ is_Some (text_on l (defaultButton l))
  ∧ is_Some (text_on l (cancelButton l)).
Proof.
  intros Hl.
  destruct buttons; simpl in Hl; try done; injection Hl as <-; simpl;
    (split_and!;
     [by eexists| |apply (bool_decide_unpack _); by vm_compute
     |by eexists|by eexists]);
    try (intros _; by eexists); by intros [? [=]].
Qed.

End MessageBoxFacts.

(** ** The environment block *)

Section EnvironmentFacts.
Import Environment.
Implicit Types (result : Dictionary) (line : String) (l : Line).

Lemma c_str_terminated line (after : list WCHAR) :
  0 ∉ line → c_str (line ++ 0 :: after) = Some (line, after).
Proof.
  induction line as [|c line IH]; intros Hnul; simpl.
  - by destruct (decide (0 = 0)).
  - apply not_elem_of_cons in Hnul as [Hc Hnul].
    destruct (decide (c = 0)); [congruence|].
    by rewrite (IH Hnul).
Qed.

Lemma c_str_unterminated (p : list WCHAR) : 0 ∉ p → c_str p = None.
Proof.
  induction p as [|c p IH]; intros Hnul; simpl; [done|].
  apply not_elem_of_cons in Hnul as [Hc Hnul].
  destruct (decide (c = 0)); [congruence|]. by rewrite (IH Hnul).
Qed.

Lemma wcschr_first (name value : String) :
  61 ∉ name → wcschr (name ++ 61 :: value) = Some (length name).
Proof.
  induction name as [|c name IH]; intros Hname; simpl.
  - by destruct (decide (61 = 61)).
  - apply not_elem_of_cons in Hname as [Hc Hname].
    destruct (decide (c = 61)); [congruence|]. by rewrite (IH Hname).
Qed.

Lemma wcschr_null line : 61 ∉ line → wcschr line = None.
Proof.
  induction line as [|c line IH]; intros Hline; simpl; [done|].
  apply not_elem_of_cons in Hline as [Hc Hline].
  destruct (decide (c = 61)); [congruence|]. by rewrite (IH Hline).
Qed.

(** One round of the loop on a string that is not the last terminator. *)
Lemma walk_step c (rest : list WCHAR) result line (after : list WCHAR) :
  c ≠ 0 → c_str (c :: rest) = Some (line, after) →
  walk (c :: rest) result =
    if decide (c = 61) then walk after result
    else match wcschr line with
         | None => AssertionFailed
         | Some k => walk after (<[take k line := drop (S k) line]> result)
         end.
Proof.
  intros Hc Hs. rewrite walk_equation_2.
  match goal with
  | |- context [walk_unfold_clause_2 _ ?d] => destruct d as [|Hc']; [done|]
  end.
  rewrite walk_clause_2_equation_2.
  match goal with
  | |- context [walk_unfold_clause_2_clause_2 _ _ _ ?i] => destruct i as [o e]
  end.
  assert (o = Some (line, after)) as ->
    by (etrans; [symmetry; exact e | exact Hs]).
  simp walk.
  match goal with
  | |- context [walk_unfold_clause_2_clause_2_clause_2 _ ?d] =>
      destruct d as [H61|H61]
  end; destruct (decide (c = 61)); try congruence; simp walk; [done|].
  destruct (wcschr line); by simp walk.
Qed.

Lemma walk_past_end c (rest : list WCHAR) result :
  c ≠ 0 → c_str (c :: rest) = None → walk (c :: rest) result = ReadPastEnd.
Proof.
  intros Hc Hs. rewrite walk_equation_2.
  match goal with
  | |- context [walk_unfold_clause_2 _ ?d] => destruct d as [|Hc']; [done|]
  end.
  rewrite walk_clause_2_equation_2.
  match goal with
  | |- context [walk_unfold_clause_2_clause_2 _ _ _ ?i] => destruct i as [o e]
  end.
  assert (o = None) as -> by (etrans; [symmetry; exact e | exact Hs]).
  by simp walk.
Qed.

Lemma walk_line l (after : list WCHAR) result :
  well_formed l →
  walk ((line_text l ++ [0]) ++ after) result = walk after (store result l).
Proof.
  destruct l as [name value|text]; simpl.
  - intros (Hne & Heq & Hnul & Hval).
    destruct name as [|c name]; [done|].
    apply not_elem_of_cons in Heq as [Hc61 Heq].
    apply not_elem_of_cons in Hnul as [Hc0 Hnul].
    assert (c_str (c :: name ++ 61 :: value ++ 0 :: after)
            = Some (c :: name ++ 61 :: value, after)) as Hs.
    { replace (c :: name ++ 61 :: value ++ 0 :: after)
        with ((c :: name ++ 61 :: value) ++ 0 :: after)
        by (simpl; by rewrite <- (assoc_L (++))).
      apply c_str_terminated.
      rewrite !not_elem_of_cons, not_elem_of_app, not_elem_of_cons. done. }
    rewrite <- !(assoc_L (++)). simpl.
    rewrite (walk_step c _ result _ after (not_eq_sym Hc0) Hs).
    destruct (decide (c = 61)); [congruence|].
    assert (wcschr (c :: name ++ 61 :: value) = Some (S (length name))) as ->.
    { apply (wcschr_first (c :: name) value).
      rewrite not_elem_of_cons. done. }
    simpl. rewrite take_app_length.
    assert (drop (S (length name)) (name ++ 61 :: value) = value) as ->; [|done].
    rewrite drop_app_ge by lia.
    by replace (S (length name) - length name)%nat with 1%nat by lia.
  - intros Hnul.
    assert (c_str (61 :: text ++ 0 :: after) = Some (61 :: text, after)) as Hs.
    { apply (c_str_terminated (61 :: text) after).
      rewrite not_elem_of_cons. done. }
    rewrite <- !(assoc_L (++)). simpl.
    rewrite (walk_step 61 _ result _ after ltac:(done) Hs).
    by destruct (decide (61 = 61)).
Qed.

Lemma block_of_cons l lines :
  block_of (l :: lines) = (line_text l ++ [0]) ++ block_of lines.
Proof. unfold block_of. simpl. by rewrite <- !(assoc_L (++)). Qed.

Lemma walk_block lines result :
  Forall well_formed lines →
  walk (block_of lines) result = Parsed (foldl store result lines).
Proof.
  intros Hwf. revert result.
  induction Hwf as [|l lines Hl _ IH]; intros result.
  - unfold block_of. simpl. by simp walk.
  - rewrite block_of_cons, walk_line by done. simpl. apply IH.
Qed.

Lemma store_all_lookup lines result name :
  foldl store result lines !! name =
    match last (omap (sets name) lines) with
    | Some value => Some value
    | None => result !! name
    end.
Proof.
  induction lines as [|l lines IH] using rev_ind; [done|].
  rewrite foldl_app, omap_app. simpl.
  destruct l as [n value|text]; simpl.
  - destruct (decide (n = name)) as [->|Hne]; simpl.
    + rewrite last_snoc. apply lookup_insert_eq.
    + rewrite lookup_insert_ne by done. by rewrite (right_id_L [] (++)).
  - by rewrite (right_id_L [] (++)).
Qed.

(** X4. Reading back a block built from well-formed strings
    (["name=value"] with a non-empty name free of ["="] and terminators and a
    value free of terminators, or a string that starts with ["="]) ends at
    the last terminator and frees the block.  The dictionary then holds,
    for every name, the value of the last string that sets it; a value may
    itself contain ["="]; strings that start with ["="] store nothing; names
    that no string sets keep what the dictionary held before. *)
Theorem GetEnvironmentVariables_reads_back_the_block lines result :
  Forall well_formed lines →
  ∃ read,
    GetEnvironmentVariables (Some (block_of lines)) result = (Parsed read, true)
    ∧ ∀ name,
        read !! name =
          match last (omap (sets name) lines) with
          | Some value => Some value
          | None => result !! name
          end.
Proof.
  intros Hwf. exists (foldl store result lines). split.
  - unfold GetEnvironmentVariables. by rewrite walk_block.
  - intros name. apply store_all_lookup.
Qed.

(** X5. A string without ["="] stops the walk at its [ASSERT]: after any
    well-formed strings, a non-empty string free of ["="] and terminators
    makes [GetEnvironmentVariables] fail the assertion, whatever follows, and
    the block is not freed. *)
Theorem GetEnvironmentVariables_asserts_on_a_string_without_equals
    lines line (after : list WCHAR) result :
  Forall well_formed lines →
  line ≠ [] → 61 ∉ line → 0 ∉ line →
  GetEnvironmentVariables
    (Some (concat ((λ l, line_text l ++ [0]) <$> lines) ++ line ++ 0 :: after))
    result
  = (AssertionFailed, false).
Proof.
  intros Hwf Hne Heq Hnul. unfold GetEnvironmentVariables.
  assert (walk (concat ((λ l, line_text l ++ [0]) <$> lines)
                  ++ line ++ 0 :: after) result = AssertionFailed) as ->; [|done].
  revert result. induction Hwf as [|l lines Hl _ IH]; intros result.
  - simpl. destruct line as [|c line]; [done|].
    assert (c_str (c :: line ++ 0 :: after) = Some (c :: line, after)) as Hs
      by apply (c_str_terminated (c :: line) after Hnul).
    pose proof (wcschr_null _ Heq) as Hw.
    apply not_elem_of_cons in Heq as [Hc61 Heq].
    apply not_elem_of_cons in Hnul as [Hc0 Hnul].
    simpl.
    rewrite (walk_step c _ result _ after (not_eq_sym Hc0) Hs).
    destruct (decide (c = 61)); [congruence|]. by rewrite Hw.
  - simpl. rewrite <- (assoc_L (++)). rewrite walk_line by done. apply IH.
Qed.

(** X6. The walk depends on the terminators: on a block that holds no
    terminator at all it runs past the end of the block, and when
    [GetEnvironmentStringsW] returns null nothing is read, nothing is
    freed, and the dictionary is left as it was. *)
Theorem GetEnvironmentVariables_needs_the_terminator
    (block : list WCHAR) result :
  0 ∉ block →
  GetEnvironmentVariables (Some block) result = (ReadPastEnd, false)
  ∧ GetEnvironmentVariables None result = (Parsed result, false).
Proof.
  intros Hnul. split; [|done]. unfold GetEnvironmentVariables.
  destruct block as [|c rest]; [by simp walk|].
  pose proof Hnul as [Hc _]%not_elem_of_cons.
  by rewrite (walk_past_end c rest result (not_eq_sym Hc)
                (c_str_unterminated _ Hnul)).
Qed.

End EnvironmentFacts.

(** ** The resume half of the handshake *)

Section ResumeFacts.
Import Lifecycle Resume.
Implicit Types (s : State).

Lemma ResumeInvariant_start setup : ResumeInvariant (start setup).
Proof. by split. Qed.

Ltac after_move' :=
  unfold occurrences, pending in *;
  cbn [history queue notifier main callback_registered IsSuspended
       SuspendComplete_signaled SignalResume_signaled signaled
       set_signaled set_IsSuspended set_queue notifier_at main_at record] in *;
  rewrite ?count_cons, ?filter_WM_USER_snoc, ?filter_WM_USER_cons in *;
  repeat match goal with
    | |- context [decide ?P] => destruct (decide P); try congruence
    | H : context [decide ?P] |- _ => destruct (decide P); try congruence
    end;
  cbn [before_PostMessage in_callback before_OnSuspend at_SetSuspendComplete
       before_OnResume flag_at before_OnResume_after_wait] in *.

Lemma move_ResumeInvariant m s s' :
  move m s = Some s' → Invariant s → ResumeInvariant s → ResumeInvariant s'.
Proof.
  intros Hm [Hreg Hpost Hrel Hq Hfire Hack Hsig Hres Hquiet Hscript]
         [Hflag Hwait Hsr Hsc].
  destruct m as [[]| | |msg]; simpl in Hm.
  - unfold notify in Hm.
    destruct (callback_registered s) eqn:Hr; [|done].
    destruct (notifier s) eqn:Hn; try done. injection Hm as <-.
    split; after_move'; try lia; try done.
  - unfold notify in Hm.
    destruct (callback_registered s) eqn:Hr; [|done]. injection Hm as <-.
    split; after_move'; try lia; try done;
      destruct (SignalResume_signaled s); lia.
  - unfold notifier_step, WaitForSingleObject in Hm.
    destruct (notifier s) eqn:Hn; [done| | | |].
    + injection Hm as <-. split; after_move'; try lia; try done;
        destruct (SuspendComplete_signaled s); lia.
    + injection Hm as <-. split; after_move'; try lia; try done;
        destruct (SignalResume_signaled s); lia.
    + injection Hm as <-. split; after_move'; try lia; try done.
    + simpl in Hm. destruct (SuspendComplete_signaled s) eqn:Hs; [|done].
      simpl in Hm. injection Hm as <-.
      split; after_move'; try lia; try done.
  - unfold main_step, WaitForSingleObject in Hm.
    destruct (main s) eqn:Hmain;
      try solve [injection Hm as <-; split; after_move'; try lia; try done].
    + destruct (queue s) as [|msg rest] eqn:Hqueue; [done|].
      destruct (decide (msg = WM_USER)) as [->|Hne]; injection Hm as <-;
        split; after_move'; rewrite ?Hmain; try lia; try done.
    + injection Hm as <-. split; after_move'; try lia; try done;
        destruct (SuspendComplete_signaled s), (notifier s); simpl in *; lia.
    + simpl in Hm. destruct (SignalResume_signaled s) eqn:Hs; [|done].
      simpl in Hm. injection Hm as <-.
      split; after_move'; try lia; try done.
  - unfold post in Hm. destruct (decide (msg = WM_USER)); [done|].
    injection Hm as <-.
    split; after_move'; try lia; try done.
Qed.

Lemma run_Invariants schedule s s' :
  run schedule s = Some s' → Invariant s → ResumeInvariant s →
  Invariant s' ∧ ResumeInvariant s'.
Proof.
  revert s. induction schedule as [|m rest IH]; intros s; simpl.
  - by intros [= <-].
  - destruct (move m s) as [s1|] eqn:Hm; [|done].
    intros Hrun Hs Hr. apply (IH s1 Hrun).
    + by apply (move_Invariant m s).
    + by apply (move_ResumeInvariant m s).
Qed.

Lemma reachable_Invariants setup schedule s :
  run schedule (start setup) = Some s → Invariant s ∧ ResumeInvariant s.
Proof.
  intros Hrun. apply (run_Invariants schedule _ s Hrun).
  - apply Invariant_start.
  - apply ResumeInvariant_start.
Qed.

Lemma run_app a b s : run (a ++ b) s = run a s ≫= run b.
Proof.
  revert s. induction a as [|m a IH]; intros s; simpl; [done|].
  destruct (move m s); [apply IH | done].
Qed.

(** While [PlmSignalResume] is unsignaled, no move takes the main thread
    out of its wait. *)
Lemma blocked_main_stays_blocked m s s' :
  move m s = Some s' → main s = M_WaitSignalResume →
  SignalResume_signaled s = false → main s' = M_WaitSignalResume.
Proof.
  intros Hm Hmain Hs. destruct m as [[]| | |msg]; simpl in Hm.
  - unfold notify in Hm. destruct (callback_registered s); [|done].
    destruct (notifier s); try done. by injection Hm as <-.
  - unfold notify in Hm. destruct (callback_registered s); [|done].
    by injection Hm as <-.
  - unfold notifier_step, WaitForSingleObject in Hm.
    destruct (notifier s); try done; try (by injection Hm as <-).
    simpl in Hm. destruct (SuspendComplete_signaled s); [|done].
    simpl in Hm. by injection Hm as <-.
  - unfold main_step, WaitForSingleObject in Hm. rewrite Hmain in Hm.
    simpl in Hm. by rewrite Hs in Hm.
  - unfold post in Hm. destruct (decide (msg = WM_USER)); [done|].
    by injection Hm as <-.
Qed.

(** X7. In every state the two threads can reach: [OnResume] has fired at
    most as often as [OnSuspend] and at most as often as the OS has signaled
    resume; while the main thread waits on an unsignaled [PlmSignalResume]
    it cannot move and no move of anybody takes it out of the wait; and
    whenever the main thread is back in its message loop, [OnResume] has
    fired exactly as often as [OnSuspend]. *)
Theorem OnResume_follows_OnSuspend_and_the_resume_signal setup schedule s :
  run schedule (start setup) = Some s →
  (occurrences OnResume s ≤ occurrences OnSuspend s)%nat
  ∧ (occurrences OnResume s ≤ occurrences (Notified false) s)%nat
  ∧ (main s = M_WaitSignalResume → SignalResume_signaled s = false →
     move Main_runs s = None
     ∧ ∀ m s', move m s = Some s' → main s' = M_WaitSignalResume)
  ∧ (main s = M_Loop → occurrences OnResume s = occurrences OnSuspend s).
Proof.
  intros Hrun.
  destruct (reachable_Invariants setup schedule s Hrun)
    as [[Hreg Hpost Hrel Hq Hfire Hack Hsig Hres Hquiet Hscript]
        [Hflag Hwait Hsr Hsc]].
  split_and!.
  - destruct (main s); simpl in *; lia.
  - destruct (SignalResume_signaled s); lia.
  - intros Hmain Hs. split.
    + simpl. unfold main_step, WaitForSingleObject. rewrite Hmain. simpl.
      by rewrite Hs.
    + intros m s' Hm. by apply (blocked_main_stays_blocked m s).
  - intros Hmain. rewrite Hmain in *. simpl in *. lia.
Qed.

(** X8. In every state the two threads can reach, [GetHasFocus] answers
    false exactly from the assignment [IsSuspended = true] to the assignment
    [IsSuspended = false]: it is already false when [OnSuspend] fires, true
    again when [OnResume] fires, and whenever it is false the handler of a
    wake-up is under way whose [OnResume] has not fired yet. *)
Theorem GetHasFocus_is_false_from_suspend_to_resume setup schedule s :
  run schedule (start setup) = Some s →
  GetHasFocus s = negb (flag_at (main s))
  ∧ (main s = M_OnSuspend → GetHasFocus s = false)
  ∧ (main s = M_OnResume → GetHasFocus s = true)
  ∧ (GetHasFocus s = false →
     (occurrences OnResume s < occurrences (Dispatched WM_USER) s)%nat).
Proof.
  intros Hrun.
  destruct (reachable_Invariants setup schedule s Hrun)
    as [[Hreg Hpost Hrel Hq Hfire Hack Hsig Hres Hquiet Hscript]
        [Hflag Hwait Hsr Hsc]].
  unfold GetHasFocus. rewrite Hflag. split_and!; [done| | |].
  - by intros ->.
  - by intros ->.
  - destruct (main s); simpl in *; try done; lia.
Qed.

(** While the callback waits and the event is unsignaled, the wake-up it
    has posted is in the queue unless the main thread is already in the
    handler, before its [SetEvent]. *)
Lemma wake_up_is_queued s :
  Invariant s → ResumeInvariant s →
  notifier s = N_WaitSuspendComplete → SuspendComplete_signaled s = false →
  before_OnSuspend (main s) = 0%nat → at_SetSuspendComplete (main s) = 0%nat →
  WM_USER ∈ queue s.
Proof.
  intros [Hreg Hpost Hrel Hq Hfire Hack Hsig Hres Hquiet Hscript]
         [Hflag Hwait Hsr Hsc] Hn Hs Hb Hat.
  rewrite Hn, Hs, Hb, Hat in *. simpl in *. unfold pending in Hq.
  destruct (filter (λ msg, msg = WM_USER) (queue s)) as [|x l] eqn:Hf.
  - simpl in Hq. lia.
  - assert (x ∈ filter (λ msg, msg = WM_USER) (queue s)) as Hx
      by (rewrite Hf; apply elem_of_cons; by left).
    apply list_elem_of_filter in Hx as [-> ?]. done.
Qed.

Lemma messages_before_wake_up_snoc q msg :
  WM_USER ∈ q →
  messages_before_wake_up (q ++ [msg]) = messages_before_wake_up q.
Proof.
  induction q as [|x q IH]; intros Hin; simpl.
  - by apply elem_of_nil in Hin.
  - destruct (decide (x = WM_USER)); [done|].
    apply elem_of_cons in Hin as [?|Hin]; [congruence|]. by rewrite IH.
Qed.

(** A statement of the main thread brings the acknowledgement one
    statement closer, and does not take the main thread into a wait that
    blocks the callback. *)
Lemma main_moves_towards_SetEvent s s1 :
  move Main_runs s = Some s1 →
  notifier s1 = notifier s
  ∧ ¬ (SuspendComplete_signaled s1 = false ∧ main s1 = M_WaitSignalResume)
  ∧ moves_to_acknowledge s1 = (moves_to_acknowledge s - 1)%nat.
Proof.
  simpl. unfold main_step, WaitForSingleObject, moves_to_acknowledge.
  intros Hm.
  destruct (main s) eqn:Hmain.
  - destruct (queue s) as [|msg rest] eqn:Hqueue; [done|].
    destruct (decide (msg = WM_USER)) as [->|Hne]; injection Hm as <-;
      simpl; rewrite ?Hmain; (split_and!; [done|by intros [_ ?]|]);
      destruct (SuspendComplete_signaled s); simpl; try done.
    + destruct (decide (msg = WM_USER)); [done|lia].
  - injection Hm as <-. simpl.
    (split_and!; [done|by intros [_ ?]|]).
    by destruct (SuspendComplete_signaled s).
  - injection Hm as <-. simpl.
    (split_and!; [done|by intros [_ ?]|]).
    by destruct (SuspendComplete_signaled s).
  - injection Hm as <-. simpl.
    (split_and!; [done|by intros [_ ?]|]).
    by destruct (SuspendComplete_signaled s).
  - injection Hm as <-. simpl.
    (split_and!; [done|by intros [? _]|]).
    by destruct (SuspendComplete_signaled s).
  - simpl in Hm. destruct (SignalResume_signaled s); [|done].
    simpl in Hm. injection Hm as <-. simpl.
    (split_and!; [done|by intros [_ ?]|]).
    destruct (SuspendComplete_signaled s); simpl; [done|lia].
  - injection Hm as <-. simpl.
    (split_and!; [done|by intros [_ ?]|]).
    destruct (SuspendComplete_signaled s); simpl; [done|lia].
  - injection Hm as <-. simpl.
    (split_and!; [done|by intros [_ ?]|]).
    destruct (SuspendComplete_signaled s); simpl; [done|lia].
  - injection Hm as <-. simpl.
    (split_and!; [done|by intros [_ ?]|]).
    destruct (SuspendComplete_signaled s); simpl; [done|lia].
  - injection Hm as <-. simpl.
    (split_and!; [done|by intros [_ ?]|]).
    destruct (SuspendComplete_signaled s); simpl; [done|lia].
Qed.

(** While the callback waits for an acknowledgement still to come, the
    main thread can move, unless it waits itself. *)
Lemma main_can_move s :
  Invariant s → ResumeInvariant s →
  notifier s = N_WaitSuspendComplete → SuspendComplete_signaled s = false →
  ¬ both_wait s → is_Some (move Main_runs s).
Proof.
  intros Hinv Hres Hn Hs Hfree. simpl. unfold main_step, WaitForSingleObject.
  destruct (main s) eqn:Hmain; try done.
  - assert (WM_USER ∈ queue s) as Hin
      by (apply wake_up_is_queued; try done; by rewrite Hmain).
    destruct (queue s) as [|msg rest]; [by apply elem_of_nil in Hin|].
    by destruct (decide (msg = WM_USER)).
  - simpl. destruct (SignalResume_signaled s) eqn:Hr; [done|].
    destruct Hfree. by split_and!.
Qed.

(** The main thread, left to itself, sets the event. *)
Lemma main_thread_sets_the_event n : ∀ s,
  Invariant s → ResumeInvariant s →
  notifier s = N_WaitSuspendComplete → ¬ both_wait s →
  moves_to_acknowledge s = n →
  ∃ s1, run (replicate n Main_runs) s = Some s1
        ∧ Invariant s1 ∧ ResumeInvariant s1
        ∧ SuspendComplete_signaled s1 = true
        ∧ notifier s1 = N_WaitSuspendComplete.
Proof.
  induction n as [|n IH]; intros s Hinv Hres Hn Hfree Hmoves.
  - exists s. split_and!; try done.
    unfold moves_to_acknowledge in Hmoves.
    destruct (SuspendComplete_signaled s); [done|].
    destruct (main s); simpl in Hmoves; lia.
  - assert (SuspendComplete_signaled s = false) as Hs.
    { unfold moves_to_acknowledge in Hmoves.
      by destruct (SuspendComplete_signaled s). }
    destruct (main_can_move s Hinv Hres Hn Hs Hfree) as [s1 Hm].
    destruct (main_moves_towards_SetEvent s s1 Hm) as (Hn1 & Hfree1 & Hmoves1).
    destruct (IH s1) as (s2 & Hrun & ? & ? & ? & ?).
    + by apply (move_Invariant Main_runs s).
    + by apply (move_ResumeInvariant Main_runs s).
    + by rewrite Hn1.
    + intros (_ & ? & ? & _). by apply Hfree1.
    + lia.
    + exists s2. split_and!; try done.
      change (replicate (S n) Main_runs) with (Main_runs :: replicate n Main_runs).
      cbn [run]. by rewrite Hm.
Qed.

(** What the rest of the system does while the callback waits neither
    delays the acknowledgement nor blocks the main thread. *)
Lemma others_do_not_delay m s s1 :
  Invariant s → ResumeInvariant s →
  notifier s = N_WaitSuspendComplete →
  move m s = Some s1 → m ≠ Main_runs → m ≠ Notifier_runs →
  notifier s1 = N_WaitSuspendComplete
  ∧ moves_to_acknowledge s1 = moves_to_acknowledge s
  ∧ (both_wait s1 → both_wait s ∧ m ≠ OS_notifies false).
Proof.
  intros Hinv Hres Hn Hm Hmain Hnot.
  destruct m as [[]| | |msg]; try done; simpl in Hm.
  - unfold notify in Hm. destruct (callback_registered s); [|done].
    by rewrite Hn in Hm.
  - unfold notify in Hm. destruct (callback_registered s); [|done].
    injection Hm as <-. split_and!; [done|done|].
    intros (_ & _ & _ & ?). done.
  - unfold post in Hm. destruct (decide (msg = WM_USER)); [done|].
    injection Hm as <-. split_and!; [done| |].
    + unfold moves_to_acknowledge. simpl.
      destruct (SuspendComplete_signaled s) eqn:Hs; [done|].
      destruct (main s) eqn:Hmain'; try done;
        rewrite messages_before_wake_up_snoc; try done;
        apply wake_up_is_queued; try done; by rewrite Hmain'.
    + intros Hboth. split; [exact Hboth|done].
Qed.

(** After a suspend and a resume, a second suspend that arrives while the
    main thread has not left its wait leaves both threads waiting. *)
Lemma second_suspend_blocks setup :
  registered setup = true →
  run Sample.second_suspend_overtakes (start setup) = Some Sample.both_waiting
  ∧ both_wait Sample.both_waiting.
Proof.
  intros Hreg.
  assert (start setup = start Sample.registered_setup) as ->
    by (unfold start; by rewrite Hreg).
  split; [by vm_compute|]. by split_and!.
Qed.

(** X9. While the callback waits for [PlmSuspendComplete], the main thread
    on its own releases it, unless the main thread waits itself.  In every
    state the two threads can reach in which the callback waits: no
    [SetEvent(PlmSuspendComplete)] has been lost to a [ResetEvent].  If the
    two threads do not both wait, then [moves_to_acknowledge] statements of
    the main thread followed by one move of the callback are all enabled and
    end with the callback returned and [OnSuspend] fired once per
    notification; and any single move keeps it so: the callback's own move
    is its return, a statement of the main thread brings the
    acknowledgement one statement closer, and a move of the OS changes
    nothing about it.  If both threads wait, neither can move, and any move
    of the OS other than a further resume notification leaves them waiting.
    Such a state can be reached: by a second suspend that arrives, after a
    resume, before the main thread has left its wait. *)
Theorem waiting_callback_is_released_unless_both_threads_wait
    setup schedule s :
  run schedule (start setup) = Some s →
  notifier s = N_WaitSuspendComplete →
  (occurrences (WaitReturned SuspendComplete) s
   + (if SuspendComplete_signaled s then 1 else 0))%nat
  = occurrences (SetEvent SuspendComplete) s
  ∧ (¬ both_wait s →
     (∃ s', run (replicate (moves_to_acknowledge s) Main_runs
                 ++ [Notifier_runs]) s = Some s'
            ∧ notifier s' = N_Idle
            ∧ occurrences OnSuspend s' = occurrences (Notified true) s')
     ∧ ∀ m s1, move m s = Some s1 →
         match m with
         | Notifier_runs => moves_to_acknowledge s = 0%nat ∧ notifier s1 = N_Idle
         | Main_runs =>
             notifier s1 = N_WaitSuspendComplete ∧ ¬ both_wait s1
             ∧ moves_to_acknowledge s1 = (moves_to_acknowledge s - 1)%nat
         | _ =>
             notifier s1 = N_WaitSuspendComplete ∧ ¬ both_wait s1
             ∧ moves_to_acknowledge s1 = moves_to_acknowledge s
         end)
  ∧ (both_wait s →
     move Main_runs s = None ∧ move Notifier_runs s = None
     ∧ ∀ m s1, move m s = Some s1 → m = OS_notifies false ∨ both_wait s1)
  ∧ ∃ schedule' s', run schedule' (start setup) = Some s' ∧ both_wait s'.
Proof.
  intros Hrun Hn.
  destruct (reachable_Invariants setup schedule s Hrun) as [Hinv Hres].
  split_and!.
  - apply Hres.
  - intros Hfree. split.
    + destruct (main_thread_sets_the_event (moves_to_acknowledge s) s)
        as (s1 & Hrun1 & Hinv1 & Hres1 & Hsig1 & Hn1); try done.
      assert (∃ s', run [Notifier_runs] s1 = Some s' ∧ notifier s' = N_Idle)
        as (s' & Hrun' & Hn').
      { simpl. unfold notifier_step, WaitForSingleObject. rewrite Hn1. simpl.
        rewrite Hsig1. simpl. by eexists. }
      exists s'. split_and!; try done.
      * by rewrite run_app, Hrun1.
      * assert (Invariant s') as [_ Hpost' Hrel' Hq' Hfire' Hack' Hsig' _ _ _].
        { simpl in Hrun'.
          destruct (notifier_step s1) as [s2|] eqn:Hstep; [|done].
          injection Hrun' as <-. by apply (move_Invariant Notifier_runs s1). }
        rewrite Hn' in *. simpl in *. lia.
    + intros m s1 Hm. destruct m as [q| | |msg].
      * destruct (others_do_not_delay (OS_notifies q) s s1)
          as (? & ? & Hboth); try done.
        split_and!; try done. intros [? _]%Hboth. done.
      * simpl in Hm. unfold notifier_step, WaitForSingleObject in Hm.
        rewrite Hn in Hm. simpl in Hm. unfold moves_to_acknowledge.
        destruct (SuspendComplete_signaled s); [|done].
        simpl in Hm. by injection Hm as <-.
      * destruct (main_moves_towards_SetEvent s s1 Hm) as (Hn1 & Hfree1 & ?).
        split_and!; [by rewrite Hn1| |done].
        intros (_ & ? & ? & _). by apply Hfree1.
      * destruct (others_do_not_delay (OS_posts msg) s s1)
          as (? & ? & Hboth); try done.
        split_and!; try done. intros [? _]%Hboth. done.
  - intros (_ & Hs & Hmain & Hr). split_and!.
    + simpl. unfold main_step, WaitForSingleObject. rewrite Hmain. simpl.
      by rewrite Hr.
    + simpl. unfold notifier_step, WaitForSingleObject. rewrite Hn. simpl.
      by rewrite Hs.
    + intros m s1 Hm. destruct m as [[]| | |msg]; simpl in Hm.
      * unfold notify in Hm. destruct (callback_registered s); [|done].
        by rewrite Hn in Hm.
      * by left.
      * unfold notifier_step, WaitForSingleObject in Hm.
        rewrite Hn in Hm. simpl in Hm. by rewrite Hs in Hm.
      * unfold main_step, WaitForSingleObject in Hm. rewrite Hmain in Hm.
        simpl in Hm. by rewrite Hr in Hm.
      * unfold post in Hm. destruct (decide (msg = WM_USER)); [done|].
        injection Hm as <-. right. by split_and!.
  - destruct (second_suspend_blocks setup) as [Hrun' Hboth].
    + destruct Hinv as [Hreg _ Hrel _ _ _ _ _ _ _].
      rewrite Hn in Hrel. simpl in Hrel.
      assert (callback_registered s = registered setup) as <-.
      { by rewrite (run_callback_registered schedule (start setup) s Hrun). }
      destruct (callback_registered s); [done|].
      specialize (Hreg eq_refl). lia.
    + by exists Sample.second_suspend_overtakes, Sample.both_waiting.
Qed.

End ResumeFacts.

(** ** More on the session registry *)

Section RegistryCompositions.
Import Registry.
Variable XUserGetLocalId : XUserHandle → XUserLocalId.
Variable order : Array.RemovalOrder.
Implicit Types (g : Globals) (id : XUserLocalId) (u : User).

(** Removing the last item gives back the list before it was appended,
    in either removal order. *)
Lemma RemoveAt_appended {T : Type} (a : list T) (x : T) :
  Array.RemoveAt order (length a) (a ++ [x]) = a.
Proof.
  unfold Array.RemoveAt, Array.Count. rewrite length_app. simpl.
  destruct (decide (length a < length a + 1)%nat); [|lia].
  destruct order.
  - rewrite delete_take_drop, take_app_length.
    rewrite drop_ge by (rewrite length_app; simpl; lia).
    by rewrite (right_id_L [] (++)).
  - rewrite last_snoc.
    replace (length a + 1 - 1)%nat with (length a) by lia.
    rewrite insert_app_r_alt by lia.
    replace (length a - length a)%nat with 0%nat by lia. simpl.
    by rewrite take_app_length.
Qed.

(** In a list without repetitions, deleting a position removes its item
    and no other. *)
Lemma NoDup_delete_elem {T : Type} (l : list T) i x y :
  NoDup l → l !! i = Some x →
  y ∈ delete i l ↔ y ∈ l ∧ y ≠ x.
Proof.
  intros Hnd Hi. rewrite delete_take_drop.
  rewrite <- (take_drop_middle l i x Hi) in Hnd.
  rewrite <- (take_drop_middle l i x Hi) at 3.
  apply NoDup_app in Hnd as (_ & Hleft & [Hright _]%NoDup_cons).
  rewrite !elem_of_app, elem_of_cons. split.
  - intros [Hy|Hy]; (split; [tauto|]); intros ->; [|done].
    apply (Hleft x Hy). apply elem_of_cons. by left.
  - intros [[Hy|[->|Hy]] Hne]; tauto.
Qed.

(** The loop body at a slot that holds a session. *)
Lemma sign_out_at_unfold i g u :
  Users g !! i = Some u →
  Users (sign_out_at order i g)
    = Array.RemoveAt order i
        (<[i := set_AssociatedDevices [] u]> (Users g))
  ∧ Trace (sign_out_at order i g)
    = Trace g ++ [XUserCloseHandle (UserHandle u)].
Proof.
  intros Hi. unfold sign_out_at, User_Unset. rewrite Hi.
  unfold through. simpl. rewrite Hi. done.
Qed.

(** X10. [FindUser] returns the index of the first session whose local id
    is the one sought, always an index inside [Users], and returns null
    exactly when no session holds that local id. *)
Theorem FindUser_returns_the_first_session_with_the_id id g :
  (∀ i, FindUser id g = Some i ↔
        (∃ u, Users g !! i = Some u ∧ value (LocalId u) = value id)
        ∧ ∀ j u, (j < i)%nat → Users g !! j = Some u →
                 value (LocalId u) ≠ value id)
  ∧ (∀ i, FindUser id g = Some i → (i < length (Users g))%nat)
  ∧ (FindUser id g = None ↔ value id ∉ ids g).
Proof.
  split_and!.
  - intros i. apply FindUser_Some.
  - intros i [(u & Hu & _) _]%FindUser_Some. by eapply lookup_lt_Some.
  - apply FindUser_None.
Qed.

(** X11. A sign-out undoes a sign-in: when a successful sign-in for a
    local id that no session holds finds a free slot, the sign-out of that
    local id right after it gives back [Users] as it was, and the handle it
    closes is the handle the sign-in stored. *)
Theorem sign_out_undoes_sign_in ab g :
  SUCCEEDED (result ab) = true →
  value (XUserGetLocalId (resultUser ab)) ∉ ids g →
  (length (Users g) < Users_Capacity)%nat →
  let id := XUserGetLocalId (resultUser ab) in
  let g' := UserChangeEventCallback order id SignedOut
              (AddUserComplete XUserGetLocalId ab g) in
  Users g' = Users g
  ∧ effects_since g g' =
      [delete_XAsyncBlock (block ab); sign_out_line id;
       XUserCloseHandle (resultUser ab)].
Proof.
  intros Hok Hnew Hroom id g'. subst g'.
  remember (AddUserComplete XUserGetLocalId ab g) as g1 eqn:Eg1.
  set (u := {| UserHandle := resultUser ab; LocalId := id;
               AssociatedDevices := [] |}).
  assert (Users g1 = Users g ++ [u]) as Hg1.
  { rewrite Eg1, AddUserComplete_Users, Hok.
    destruct (decide _); [done|]. destruct (decide _); [done|lia]. }
  assert (Trace g1 = Trace g ++ [delete_XAsyncBlock (block ab)]) as Ht1
    by (rewrite Eg1; apply AddUserComplete_Trace).
  clear Eg1.
  assert (FindUser id g1 = Some (length (Users g))) as Hfind.
  { apply FindUser_Some. rewrite Hg1. split.
    - exists u. split; [|done]. rewrite lookup_app_r by lia.
      by replace (length (Users g) - length (Users g))%nat with 0%nat by lia.
    - intros j v Hj Hv Hid. rewrite lookup_app_l in Hv by done.
      apply Hnew. fold id. rewrite <- Hid. unfold ids.
      apply list_elem_of_fmap. exists v. split; [done|].
      apply list_elem_of_lookup. by exists j. }
  assert (Users g1 !! length (Users g) = Some u) as Hu.
  { rewrite Hg1, lookup_app_r by lia.
    by replace (length (Users g) - length (Users g))%nat with 0%nat by lia. }
  rewrite UserChangeEventCallback_SignedOut. cbv zeta.
  rewrite Hfind.
  destruct (sign_out_at_unfold (length (Users g)) (emit (sign_out_line id) g1)
              u Hu) as [-> Ht].
  split.
  - change (Users (emit (sign_out_line id) g1)) with (Users g1).
    rewrite Hg1, insert_app_r_alt by lia.
    replace (length (Users g) - length (Users g))%nat with 0%nat by lia.
    simpl. apply RemoveAt_appended.
  - unfold effects_since. rewrite Ht. simpl. rewrite Ht1.
    rewrite <- !(assoc_L (++)). by rewrite drop_app_length.
Qed.

(** X12. Delivering the same sign-in completion a second time leaves
    [Users] as the first delivery left it, whatever the result of the
    sign-in and however full the registry. *)
Theorem sign_in_twice_is_sign_in_once ab g :
  Users (AddUserComplete XUserGetLocalId ab
           (AddUserComplete XUserGetLocalId ab g))
  = Users (AddUserComplete XUserGetLocalId ab g).
Proof.
  set (g1 := AddUserComplete XUserGetLocalId ab g).
  assert (Users g1 =
            if SUCCEEDED (result ab) then
              if decide (value (XUserGetLocalId (resultUser ab)) ∈ ids g)
              then Users g
              else if decide (length (Users g) < Users_Capacity)%nat then
                     Users g ++ [ {| UserHandle := resultUser ab;
                                     LocalId := XUserGetLocalId (resultUser ab);
                                     AssociatedDevices := [] |} ]
                   else Users g
            else Users g) as Hg1 by apply AddUserComplete_Users.
  rewrite AddUserComplete_Users.
  destruct (SUCCEEDED (result ab)); [|done].
  destruct (decide (_ ∈ ids g1)) as [|Hnot]; [done|].
  destruct (decide (length (Users g1) < Users_Capacity)%nat) as [Hroom|];
    [|done].
  exfalso. unfold ids in Hnot. rewrite Hg1 in Hnot, Hroom.
  destruct (decide (_ ∈ ids g)) as [Hin|Hout]; [done|].
  destruct (decide (length (Users g) < Users_Capacity)%nat); [|done].
  apply Hnot. rewrite fmap_app. apply elem_of_app. right.
  apply elem_of_cons. by left.
Qed.

Lemma Tick_Users (p : Platform) :
  Users (globals (Tick XUserGetLocalId order p))
  = Users (apply_all XUserGetLocalId order (CompletionPort p) (globals p)).
Proof.
  unfold Tick. rewrite dispatch_loop_drains, message_loop_drains. simpl.
  rewrite deliver_all_Users. by apply apply_all_Users.
Qed.

(** X14. Batching does not matter to the registry: two ticks, the first
    over one list of completions and the second over another, leave [Users]
    as a single tick over the two lists joined leaves it, whatever window
    messages each tick takes.  A tick with no completion queued leaves
    [Users] as it is. *)
Theorem two_Ticks_are_one_Tick_for_the_registry
    g (port1 port2 : list Completion) (msgs1 msgs2 msgs : list MSG) :
  let p1 := Tick XUserGetLocalId order
              {| globals := g; CompletionPort := port1;
                 MessageQueue := msgs1 |} in
  let p2 := Tick XUserGetLocalId order
              {| globals := globals p1; CompletionPort := port2;
                 MessageQueue := msgs2 |} in
  let p := Tick XUserGetLocalId order
             {| globals := g; CompletionPort := port1 ++ port2;
                MessageQueue := msgs |} in
  Users (globals p2) = Users (globals p)
  ∧ Users (globals (Tick XUserGetLocalId order
                      {| globals := g; CompletionPort := [];
                         MessageQueue := msgs |})) = Users g.
Proof.
  cbv zeta. rewrite !Tick_Users. simpl. split; [|done].
  rewrite apply_all_app. apply apply_all_Users.
  by rewrite Tick_Users.
Qed.

End RegistryCompositions.

Section SignOut.
Import Registry.
Variable order : Array.RemovalOrder.
Implicit Types (g : Globals) (id : XUserLocalId).

(** X13. In a registry whose sessions have pairwise different local ids, a
    sign-out leaves no session with the notified local id, and removes no
    other local id. *)
Theorem sign_out_removes_exactly_the_notified_id id g :
  NoDup (ids g) →
  let g' := UserChangeEventCallback order id SignedOut g in
  (value id ∉ ids g')
  ∧ ∀ x, x ≠ value id → (x ∈ ids g' ↔ x ∈ ids g).
Proof.
  intros Hnd g'. subst g'. rewrite UserChangeEventCallback_SignedOut.
  cbv zeta. destruct (FindUser id g) as [i|] eqn:Hfind.
  - rewrite sign_out_at_ids. rewrite ids_emit.
    apply FindUser_Some in Hfind as [(u & Hu & Hid) _].
    assert (ids g !! i = Some (value id)) as Hi.
    { unfold ids. rewrite list_lookup_fmap, Hu. simpl. by rewrite Hid. }
    assert (i < length (ids g))%nat as Hlt by (by eapply lookup_lt_Some).
    split.
    + rewrite (RemoveAt_Permutation order i (ids g) Hlt).
      rewrite (NoDup_delete_elem _ i (value id) _ Hnd Hi). tauto.
    + intros x Hx. rewrite (RemoveAt_Permutation order i (ids g) Hlt).
      rewrite (NoDup_delete_elem _ i (value id) _ Hnd Hi). tauto.
  - rewrite ids_emit. apply FindUser_None in Hfind. done.
Qed.

End SignOut.

(** ** The text of a device identifier *)

Section DeviceTextFacts.
Import DeviceText.

Lemma byte_range (b : BYTE) : 0 ≤ Z.of_N (Byte.to_N b) < 256.
Proof. pose proof (Byte.to_N_bounded b). lia. Qed.

(** A number read determines its four bytes. *)
Lemma read_word_inj (a0 a1 a2 a3 b0 b1 b2 b3 : BYTE) :
  Z.of_N (Byte.to_N a0) + 2 ^ 8 * Z.of_N (Byte.to_N a1)
  + 2 ^ 16 * Z.of_N (Byte.to_N a2) + 2 ^ 24 * Z.of_N (Byte.to_N a3)
  = Z.of_N (Byte.to_N b0) + 2 ^ 8 * Z.of_N (Byte.to_N b1)
    + 2 ^ 16 * Z.of_N (Byte.to_N b2) + 2 ^ 24 * Z.of_N (Byte.to_N b3) →
  a0 = b0 ∧ a1 = b1 ∧ a2 = b2 ∧ a3 = b3.
Proof.
  intros H.
  pose proof (byte_range a0). pose proof (byte_range a1).
  pose proof (byte_range a2). pose proof (byte_range a3).
  pose proof (byte_range b0). pose proof (byte_range b1).
  pose proof (byte_range b2). pose proof (byte_range b3).
  split_and!; apply Byte_to_N_inj; lia.
Qed.

(** X15. The eight numbers [ToString] formats are the identifier read as
    eight unsigned 32-bit words: each lies below 2^32, and together they
    determine all 32 bytes, so two identifiers that [operator==] tells
    apart are never handed to [String::Format] as the same numbers. *)
Theorem ToString_arguments_determine_the_identifier
    (l r : APP_LOCAL_DEVICE_ID) :
  length (ToString_arguments l) = 8%nat
  ∧ Forall (λ w, 0 ≤ w < 2 ^ 32) (ToString_arguments l)
  ∧ (ToString_arguments l = ToString_arguments r ↔ l = r)
  ∧ (APP_LOCAL_DEVICE_ID_eq l r = false →
     ToString_arguments l ≠ ToString_arguments r).
Proof.
  assert (ToString_arguments l = ToString_arguments r → l = r) as Hinj.
  { destruct l as [v], r as [w]. unfold ToString_arguments. simpl.
    intros H. f_equal. apply vec_to_list_inj2.
    pose proof (length_vec_to_list v) as Hv.
    pose proof (length_vec_to_list w) as Hw.
    revert H Hv Hw. generalize (vec_to_list v) (vec_to_list w).
    intros a b H Ha Hb. unfold sizeof_APP_LOCAL_DEVICE_ID in *.
    do 32 (destruct a as [|? a]; [discriminate Ha|]).
    destruct a; [|discriminate Ha].
    do 32 (destruct b as [|? b]; [discriminate Hb|]).
    destruct b; [|discriminate Hb].
    unfold read_unsigned_int in H. simpl in H.
    injection H as H0 H1 H2 H3 H4 H5 H6 H7.
    apply read_word_inj in H0 as (-> & -> & -> & ->).
    apply read_word_inj in H1 as (-> & -> & -> & ->).
    apply read_word_inj in H2 as (-> & -> & -> & ->).
    apply read_word_inj in H3 as (-> & -> & -> & ->).
    apply read_word_inj in H4 as (-> & -> & -> & ->).
    apply read_word_inj in H5 as (-> & -> & -> & ->).
    apply read_word_inj in H6 as (-> & -> & -> & ->).
    apply read_word_inj in H7 as (-> & -> & -> & ->).
    done. }
  split_and!.
  - done.
  - destruct l as [v]. unfold ToString_arguments. simpl.
    pose proof (length_vec_to_list v) as Hv.
    revert Hv. generalize (vec_to_list v). intros a Ha.
    unfold sizeof_APP_LOCAL_DEVICE_ID in *.
    do 32 (destruct a as [|? a]; [discriminate Ha|]).
    destruct a; [|discriminate Ha].
    unfold read_unsigned_int. simpl.
    repeat (apply Forall_cons; split;
            [repeat match goal with
               | |- context [Byte.to_N ?b] =>
                   lazymatch goal with
                   | _ : 0 ≤ Z.of_N (Byte.to_N b) < 256 |- _ => fail
                   | _ => pose proof (byte_range b)
                   end
               end; lia|]).
    apply Forall_nil_2.
  - split; [apply Hinj | by intros ->].
  - intros Hne Heq. apply Hinj in Heq.
    apply APP_LOCAL_DEVICE_ID_eq_exact in Heq. congruence.
Qed.

End DeviceTextFacts.

(** ** Moving a device there and back *)

Section DeviceMoves.
Import Registry.
Variable order : Array.RemovalOrder.
Implicit Types (g : Globals) (u : User) (d : APP_LOCAL_DEVICE_ID).

Lemma Find_from_skips d (ds rest : list APP_LOCAL_DEVICE_ID) k :
  d ∉ ds →
  Array.Find_from APP_LOCAL_DEVICE_ID_eq d (ds ++ rest) k
  = Array.Find_from APP_LOCAL_DEVICE_ID_eq d rest (k + length ds).
Proof.
  revert k. induction ds as [|x ds IH]; intros k Hd; simpl.
  - f_equal. lia.
  - apply not_elem_of_cons in Hd as [Hx Hd].
    destruct (APP_LOCAL_DEVICE_ID_eq x d) eqn:Heq.
    { apply APP_LOCAL_DEVICE_ID_eq_exact in Heq. congruence. }
    rewrite IH by done. f_equal. lia.
Qed.

(** Removing a device right after adding it gives back the list, when the
    list did not hold the device; this is so whether or not there was room
    to add it. *)
Lemma Remove_after_Add d (ds : list APP_LOCAL_DEVICE_ID) :
  d ∉ ds →
  Array.Remove APP_LOCAL_DEVICE_ID_eq order d
    (Array.Add AssociatedDevices_Capacity d ds) = ds.
Proof.
  intros Hd. unfold Array.Remove, Array.Find, Array.Add.
  destruct (decide _).
  - rewrite Find_from_skips by done. simpl.
    assert (APP_LOCAL_DEVICE_ID_eq d d = true) as ->
      by by apply APP_LOCAL_DEVICE_ID_eq_exact.
    apply RemoveAt_appended.
  - pose proof (Find_from_skips d ds [] 0 Hd) as H.
    rewrite (right_id_L [] (++)) in H. rewrite H. done.
Qed.

(** X16. Moving a device to a session and back leaves the registry as it
    was: if the device is not in the list of the session found for user [b]
    and no session is found for user [a], then the change "from [a] to [b]"
    followed by the change "from [b] to [a]" gives back [Users], also when
    the list of [b] is full and the device could not be added. *)
Theorem detach_undoes_attach d (a b : XUserLocalId) g i u :
  FindUser b g = Some i → Users g !! i = Some u →
  d ∉ AssociatedDevices u → FindUser a g = None →
  Users (UserDeviceAssociationChangedCallback order
           {| deviceId := d; oldUser := b; newUser := a |}
           (UserDeviceAssociationChangedCallback order
              {| deviceId := d; oldUser := a; newUser := b |} g))
  = Users g.
Proof.
  intros Hb Hu Hd Ha.
  set (c1 := {| deviceId := d; oldUser := a; newUser := b |}).
  set (c2 := {| deviceId := d; oldUser := b; newUser := a |}).
  remember (UserDeviceAssociationChangedCallback order c1 g) as g1 eqn:Eg1.
  assert (sessions g1 = sessions g) as Hs1
    by (rewrite Eg1; apply UserDeviceAssociationChanged_sessions).
  assert (∀ id, FindUser id g1 = FindUser id g) as Hfind
    by (intros id; apply FindUser_ids; by apply sessions_ids).
  assert (length (Users g1) = length (Users g)) as Hlen1.
  { apply (f_equal length) in Hs1. unfold sessions in Hs1.
    by rewrite !length_fmap in Hs1. }
  pose proof (UserDeviceAssociationChanged_sessions order c2 g1) as Hs2.
  assert (length (Users (UserDeviceAssociationChangedCallback order c2 g1))
          = length (Users g1)) as Hlen2.
  { apply (f_equal length) in Hs2. unfold sessions in Hs2.
    by rewrite !length_fmap in Hs2. }
  apply list_eq. intros j.
  destruct (Users g !! j) as [v|] eqn:Hj.
  2:{ apply lookup_ge_None in Hj. apply lookup_ge_None. lia. }
  assert (Users g1 !! j
          = Some (set_AssociatedDevices
                    (devices_after order false (bool_decide (Some i = Some j))
                       d (AssociatedDevices v)) v)) as Hj1.
  { rewrite Eg1. rewrite (UserDeviceAssociationChanged_lookup order c1 g j v Hj).
    simpl. rewrite Ha, Hb.
    by rewrite (bool_decide_eq_false_2 (None = Some j)). }
  rewrite (UserDeviceAssociationChanged_lookup order c2 g1 j _ Hj1).
  simpl. rewrite !Hfind, Ha, Hb.
  rewrite (bool_decide_eq_false_2 (None = Some j)) by done.
  destruct (decide (i = j)) as [->|Hne].
  - rewrite (bool_decide_eq_true_2 (Some j = Some j)) by done.
    unfold devices_after. simpl.
    assert (v = u) as -> by congruence.
    rewrite Remove_after_Add by done. by destruct u.
  - rewrite (bool_decide_eq_false_2 (Some i = Some j)) by congruence.
    unfold devices_after. simpl. by destruct v.
Qed.

End DeviceMoves.

(** ** Registration and start *)

Section StartupFacts.
Import Lifecycle.

(** Without the registration, nothing of the handshake ever happens. *)
Lemma unregistered_is_quiet setup schedule s :
  registered setup = false → run schedule (start setup) = Some s →
  occurrences OnSuspend s = 0%nat ∧ occurrences OnResume s = 0%nat
  ∧ main s = M_Loop ∧ GetHasFocus s = true.
Proof.
  intros Hreg Hrun.
  destruct (run_Invariant schedule _ s Hrun (Invariant_start setup))
    as [Hr Hpost Hrel Hq Hfire Hack Hsig Hres Hquiet Hscript].
  assert (callback_registered s = false) as Hcr
    by by rewrite (run_callback_registered schedule _ s Hrun).
  specialize (Hr Hcr).
  assert (occurrences (Dispatched WM_USER) s = 0%nat) as Hd by lia.
  destruct (Hquiet Hd) as [Hmain Hsusp].
  split_and!; try lia; try done.
  unfold GetHasFocus. by rewrite Hsusp.
Qed.

(** X17. [OnMainWindowCreated] always returns to its caller.  It calls
    [RegisterAppStateChangeNotification] exactly when both events were
    created, and the callback is registered exactly when, in addition, that
    call reports success.  Whenever the callback is not registered, be it
    for a missing event or for a failed registration, [OnSuspend] and
    [OnResume] never fire, the main thread stays in its message loop and
    [GetHasFocus] stays true. *)
Theorem OnMainWindowCreated_registers_or_disables_the_handshake os :
  ∃ setup,
    OnMainWindowCreated os = Returns setup
    ∧ PlmSuspendComplete setup = CreateEventEx_1 os
    ∧ PlmSignalResume setup = CreateEventEx_2 os
    ∧ (RegisterAppStateChangeNotification ∈ calls setup ↔
       CreateEventEx_1 os ≠ 0 ∧ CreateEventEx_2 os ≠ 0)
    ∧ (registered setup = true ↔
       CreateEventEx_1 os ≠ 0 ∧ CreateEventEx_2 os ≠ 0
       ∧ RegisterAppStateChangeNotification_status os = 0)
    ∧ (registered setup = false →
       ∀ schedule s, run schedule (start setup) = Some s →
         occurrences OnSuspend s = 0%nat ∧ occurrences OnResume s = 0%nat
         ∧ main s = M_Loop ∧ GetHasFocus s = true).
Proof.
  unfold OnMainWindowCreated.
  destruct (decide (CreateEventEx_1 os = 0)) as [H1|H1];
    [|destruct (decide (CreateEventEx_2 os = 0)) as [H2|H2]].
  - rewrite (bool_decide_eq_true_2 _ H1). simpl.
    eexists. split_and!; try reflexivity.
    + simpl. split; [|by intros [? _]]. intros Hin.
      repeat (apply elem_of_cons in Hin as [?|Hin]; [done|]).
      by apply elem_of_nil in Hin.
    + simpl. split; [done|by intros [? _]].
    + intros Hreg schedule s. by apply unregistered_is_quiet.
  - rewrite (bool_decide_eq_false_2 _ H1), (bool_decide_eq_true_2 _ H2). simpl.
    eexists. split_and!; try reflexivity.
    + simpl. split; [|by intros [_ ?]]. intros Hin.
      repeat (apply elem_of_cons in Hin as [?|Hin]; [done|]).
      by apply elem_of_nil in Hin.
    + simpl. split; [done|by intros (_ & ? & _)].
    + intros Hreg schedule s. by apply unregistered_is_quiet.
  - rewrite (bool_decide_eq_false_2 _ H1), (bool_decide_eq_false_2 _ H2). simpl.
    eexists. split_and!; try reflexivity.
    + simpl. split; [done|]. intros _.
      do 2 (apply elem_of_cons; right). apply elem_of_cons. by left.
    + simpl. rewrite bool_decide_eq_true. tauto.
    + intros Hreg schedule s. by apply unregistered_is_quiet.
Qed.

End StartupFacts.

Section InitFacts.
Import Startup.

(** X18. [Init] fails exactly when [Win32Platform::Init] fails or the task
    queue cannot be created; a failed sign-in request does not fail it.
    When it succeeds it has created the queue, registered each of the two
    callbacks once, requested the sign-in once, and started the input.
    When the queue cannot be created it registers nothing and requests no
    sign-in.  The async block of the request is deleted exactly once: by
    [Init] when the request fails, and otherwise by [AddUserComplete] when
    the completion is dispatched, whatever the result of the sign-in. *)
Theorem Init_fails_only_without_base_or_queue os :
  let '(failed, g) := Init os initial in
  (failed = true ↔
   Win32Platform_Init os = true ∨ SUCCEEDED (XTaskQueueCreate_hr os) = false)
  ∧ TaskQueue g = negb failed
  ∧ times XUserRegisterForChangeEvent g = (if failed then 0 else 1)%nat
  ∧ times XUserRegisterForDeviceAssociationChanged g
    = (if failed then 0 else 1)%nat
  ∧ times XUserAddAsync g = (if failed then 0 else 1)%nat
  ∧ times GDKInput_Init g = (if failed then 0 else 1)%nat
  ∧ times new_XAsyncBlock g
    = (times delete_XAsyncBlock g + if sign_in_pending os then 1 else 0)%nat
  ∧ ∀ XUserGetLocalId ab registry,
      Registry.effects_since registry
        (Registry.AddUserComplete XUserGetLocalId ab registry)
      = [Registry.delete_XAsyncBlock (block ab)].
Proof.
  assert (∀ XUserGetLocalId ab registry,
            Registry.effects_since registry
              (Registry.AddUserComplete XUserGetLocalId ab registry)
            = [Registry.delete_XAsyncBlock (block ab)]) as Hdel.
  { intros X ab registry. unfold Registry.effects_since.
    rewrite AddUserComplete_Trace. by rewrite drop_app_length. }
  unfold Init, sign_in_pending. rewrite !FAILED_not_SUCCEEDED.
  destruct (Win32Platform_Init os); simpl.
  { split_and!; try done. split; [by left|done]. }
  destruct (SUCCEEDED (XTaskQueueCreate_hr os)); simpl.
  2:{ destruct (GetUserDefaultLocaleName os), (GetComputerNameW os);
        (split_and!; try done; split; [by right|done]). }
  destruct (SUCCEEDED (XUserAddAsync_hr os)); simpl;
    destruct (GetUserDefaultLocaleName os), (GetComputerNameW os);
    (split_and!; try done; split; [done|by intros [?|?]]).
Qed.

End InitFacts.

(** ** More worked examples *)

Section MoreExamples.
Import Registry Lifecycle Resume Environment Sample.

Lemma Show_returns_the_result_named_on_the_button_witness :
  MessageBox.name
    (MessageBox.Show narrow second_pressed [] [] MessageBoxButtons.YesNo).1
  = "No".
Proof.
  eapply (Show_returns_the_result_named_on_the_button narrow second_pressed
            [] [] MessageBoxButtons.YesNo).
  - reflexivity.
  - by repeat split.
  - reflexivity.
Defined.

Lemma dialog_layouts_are_consistent_witness :
  ∃ l, MessageBox.layout MessageBoxButtons.YesNoCancel = Some l
       ∧ is_Some (MessageBox.text_on l (MessageBox.cancelButton l)).
Proof.
  eexists. split; [reflexivity|].
  eapply (dialog_layouts_are_consistent MessageBoxButtons.YesNoCancel).
  reflexivity.
Defined.

Lemma some_lines_well_formed : Forall well_formed some_lines.
Proof.
  repeat constructor; try done;
    apply (bool_decide_unpack _); by vm_compute.
Defined.

Lemma GetEnvironmentVariables_reads_back_the_block_witness :
  ∃ read,
    GetEnvironmentVariables (Some (block_of some_lines)) ∅ = (Parsed read, true)
    ∧ read !! [80; 65; 84; 72] = Some [68; 58]
    ∧ read !! [65] = Some [98; 61; 99]
    ∧ read !! [] = None.
Proof.
  destruct (GetEnvironmentVariables_reads_back_the_block some_lines ∅
              some_lines_well_formed) as (read & Hread & Hlookup).
  exists read. split; [exact Hread|].
  split_and!; rewrite Hlookup; reflexivity.
Defined.

Lemma GetEnvironmentVariables_asserts_on_a_string_without_equals_witness :
  GetEnvironmentVariables
    (Some (concat ((λ l, line_text l ++ [0]) <$> some_lines)
             ++ [80; 65; 84; 72] ++ 0 :: [0]))
    ∅
  = (AssertionFailed, false).
Proof.
  apply (GetEnvironmentVariables_asserts_on_a_string_without_equals
           some_lines [80; 65; 84; 72] [0] ∅ some_lines_well_formed).
  - done.
  - apply (bool_decide_unpack _). by vm_compute.
  - apply (bool_decide_unpack _). by vm_compute.
Defined.

Lemma GetEnvironmentVariables_needs_the_terminator_witness :
  GetEnvironmentVariables (Some [65; 61; 66]) ∅ = (ReadPastEnd, false).
Proof.
  apply (GetEnvironmentVariables_needs_the_terminator [65; 61; 66] ∅).
  apply (bool_decide_unpack _). by vm_compute.
Defined.

Lemma OnResume_follows_OnSuspend_and_the_resume_signal_witness :
  run one_handshake (start registered_setup) = Some after_one_handshake
  ∧ (occurrences OnResume after_one_handshake
     ≤ occurrences OnSuspend after_one_handshake)%nat.
Proof.
  split; [reflexivity|].
  exact (proj1 (OnResume_follows_OnSuspend_and_the_resume_signal
                  registered_setup one_handshake after_one_handshake eq_refl)).
Defined.

Lemma GetHasFocus_is_false_from_suspend_to_resume_witness :
  run until_OnSuspend (start registered_setup) = Some callback_waiting
  ∧ GetHasFocus callback_waiting = negb (flag_at (main callback_waiting)).
Proof.
  split; [reflexivity|].
  exact (proj1 (GetHasFocus_is_false_from_suspend_to_resume registered_setup
                  until_OnSuspend callback_waiting eq_refl)).
Defined.

Lemma waiting_callback_is_released_unless_both_threads_wait_witness :
  notifier callback_waiting = N_WaitSuspendComplete
  ∧ ¬ both_wait callback_waiting
  ∧ ∃ s',
      run (replicate (moves_to_acknowledge callback_waiting) Main_runs
           ++ [Notifier_runs]) callback_waiting = Some s'
      ∧ notifier s' = N_Idle.
Proof.
  assert (¬ both_wait callback_waiting) as Hfree
    by (intros (_ & _ & Hmain & _); discriminate Hmain).
  split; [reflexivity|]. split; [exact Hfree|].
  destruct (waiting_callback_is_released_unless_both_threads_wait
              registered_setup until_OnSuspend callback_waiting
              eq_refl eq_refl)
    as (_ & Hrelease & _).
  destruct (Hrelease Hfree) as [(s' & Hrun & Hidle & _) _].
  exists s'. split; [exact Hrun | exact Hidle].
Defined.

Lemma sign_out_undoes_sign_in_witness :
  (length (Users one_user) < Users_Capacity)%nat
  ∧ Users (UserChangeEventCallback Array.SwapWithLast
             (XUserGetLocalId (resultUser (sign_in 9))) SignedOut
             (AddUserComplete XUserGetLocalId (sign_in 9) one_user))
    = Users one_user.
Proof.
  assert (Hroom : (length (Users one_user) < Users_Capacity)%nat)
    by (unfold Users_Capacity; simpl; lia).
  split; [exact Hroom|].
  refine (proj1 (sign_out_undoes_sign_in XUserGetLocalId Array.SwapWithLast
                   (sign_in 9) one_user eq_refl _ Hroom)).
  apply (bool_decide_unpack _). by vm_compute.
Defined.

Lemma sign_out_removes_exactly_the_notified_id_witness :
  3 ∉ ids (UserChangeEventCallback Array.SwapWithLast {| value := 3 |}
             SignedOut full).
Proof.
  apply (sign_out_removes_exactly_the_notified_id Array.SwapWithLast
           {| value := 3 |} full).
  apply (bool_decide_unpack _). by vm_compute.
Defined.

Lemma detach_undoes_attach_witness :
  Users (UserDeviceAssociationChangedCallback Array.KeepOrder
           {| deviceId := gamepad; oldUser := {| value := 7 |};
              newUser := {| value := 0 |} |}
           (UserDeviceAssociationChangedCallback Array.KeepOrder
              {| deviceId := gamepad; oldUser := {| value := 0 |};
                 newUser := {| value := 7 |} |} one_user))
  = Users one_user.
Proof.
  apply (detach_undoes_attach Array.KeepOrder gamepad {| value := 0 |}
           {| value := 7 |} one_user 0%nat (user 7 [])).
  - reflexivity.
  - reflexivity.
  - apply not_elem_of_nil.
  - reflexivity.
Defined.

(** Without the uniqueness of the local ids a sign-out leaves the second
    session of the notified id in place. *)
Example sign_out_removes_one_session_only :
  ids (UserChangeEventCallback Array.KeepOrder {| value := 7 |} SignedOut
         {| Users := [user 7 []; user 7 []]; Trace := [] |}) = [7].
Proof. reflexivity. Qed.

(** A device that is already in the list moves to the end when it is
    attached and detached again: the first occurrence is the one removed. *)
Example detach_removes_the_first_occurrence :
  AssociatedDevices <$>
    Users (UserDeviceAssociationChangedCallback Array.KeepOrder
             {| deviceId := gamepad; oldUser := {| value := 7 |};
                newUser := {| value := 7 |} |} user_with_gamepad)
  = [[gamepad]].
Proof. by vm_compute. Qed.

(** The text arguments of the sample gamepad: every word is 0x2a2a2a2a. *)
Example ToString_arguments_of_the_gamepad :
  DeviceText.ToString_arguments gamepad
  = [707406378; 707406378; 707406378; 707406378;
     707406378; 707406378; 707406378; 707406378].
Proof. by vm_compute. Qed.

End MoreExamples.
